(** * c-grad: tensor accessors, ReLU, MSE and linear-layer kernels

    A shallow embedding of the numerical kernels of the c-grad autograd
    library ([include/tensor/tensor.h], [src/layers/relu.c],
    [src/layers/linear.c] and the MSE loss) together with the properties the
    specification states about them.

    Conventions of the embedding.
    - [size_t] is [N]; arithmetic on it wraps at [2^64] ([size_add],
      [size_mul]).
    - [double] is a type [D] with the operations of the class [Scalar].  The
      instance [binary64] interprets it by the kernel's IEEE-754 binary64
      floats, which is what the C code runs on; theorems proved for every
      instance hold for that one in particular.
    - A pointer is an [option]: [None] is [NULL].  A [double*] buffer is a
      [list D]; a load or a store outside it is undefined behaviour.
    - A function whose C body can run into undefined behaviour returns in
      the [option] monad: [None] is undefined behaviour, [Some r] the result
      of a defined run. *)

From Stdlib Require Import NArith ZArith PArith Bool Floats Lia.
From stdpp Require Import base option list gmap.

Set Default Proof Using "Type".

(** ** Status codes ([utils/error.h]) *)

Inductive cgrad_error : Set :=
| NO_ERROR
| TENSOR_NULL
| TENSOR_DATA_NULL
| TENSOR_SHAPE_MISMATCH
| TENSOR_DATA_SIZE_MISMATCH
| TENSOR_WRONG_SHAPE
| TENSOR_INDEX_OUT_OF_BOUNDS
| MISSING_NODE
| OUT_OF_MEMORY
| INVALID_ROOT.

#[global] Instance cgrad_error_eq_dec : EqDecision cgrad_error.
Proof. solve_decision. Defined.

(** ** [size_t] *)

Definition SIZE_WIDTH : N := 64.

Definition size_wrap (n : N) : N := (n mod 2 ^ SIZE_WIDTH)%N.

Definition size_add (a b : N) : N := size_wrap (a + b).

Definition size_mul (a b : N) : N := size_wrap (a * b).

Definition size_sub (a b : N) : N := size_wrap (a + 2 ^ SIZE_WIDTH - b).

(** ** [double] *)

Class Scalar (D : Type) := {
  (** conversion of an [int] constant to [double] *)
  of_int : Z -> D;
  (** conversion of a [size_t] to [double] *)
  of_size : N -> D;
  (** the literal [0.5] *)
  half : D;
  dadd : D -> D -> D;
  dsub : D -> D -> D;
  dmul : D -> D -> D;
  ddiv : D -> D -> D;
  (** [x < y] *)
  dlt : D -> D -> bool
}.

Declare Scope dbl_scope.
Delimit Scope dbl_scope with dbl.
Infix "+" := dadd : dbl_scope.
Infix "-" := dsub : dbl_scope.
Infix "*" := dmul : dbl_scope.
Infix "/" := ddiv : dbl_scope.
Infix "<?" := dlt : dbl_scope.

(** Round-to-nearest-even conversion of an integer to binary64. *)
Definition Z2double (z : Z) : float :=
  SF2Prim (binary_normalize prec emax z 0 false).

#[global] Instance binary64 : Scalar float := {
  of_int := Z2double;
  of_size := fun n => Z2double (Z.of_N n);
  half := 0.5%float;
  dadd := PrimFloat.add;
  dsub := PrimFloat.sub;
  dmul := PrimFloat.mul;
  ddiv := PrimFloat.div;
  dlt := PrimFloat.ltb
}.

(** The 53-bit mantissa binary64 gives a positive integer below [2^53]. *)
Definition norm_mant (m : positive) : positive :=
  match (53 - Zpos (digits2_pos m))%Z with
  | Zpos k => Pos.iter xO m k
  | _ => m
  end.

(** A binary64 value that is neither a NaN nor the negative zero. *)
Definition ordinary (x : float) : Prop :=
  Prim2SF x <> S754_nan /\ Prim2SF x <> S754_zero true.

(** The loops of the MSE kernels compare a [size_t] counter with a
    [double] bound that was itself converted from a [size_t].  The
    comparison counts like the integers do as long as the conversion keeps
    the counters below the bound apart from it, which binary64 does for
    every bound up to [2^53]. *)
Definition size_exact {D : Type} {SD : Scalar D} (n : N) : Prop :=
  forall i : N, (i <= n)%N -> dlt (of_size i) (of_size n) = (i <? n)%N.

(** ** Buffers *)

Section Buffers.
Context {D : Type}.

Definition load (buf : list D) (i : N) : option D := buf !! N.to_nat i.

Definition store (buf : list D) (i : N) (v : D) : option (list D) :=
  if decide (N.to_nat i < length buf)%nat
  then Some (<[N.to_nat i := v]> buf)
  else None.

(** [for (size_t i = 0; i < n; i++) body], the state threaded through the
    iterations; the counter runs over [start], [start + 1], ... *)
Fixpoint for_loop {S : Type} (count : nat) (start : N)
    (body : N -> S -> option S) (s : S) : option S :=
  match count with
  | O => Some s
  | Datatypes.S c => s' ← body start s; for_loop c (N.succ start) body s'
  end.

Definition for_size {S : Type} (n : N) (body : N -> S -> option S) (s : S)
    : option S :=
  for_loop (N.to_nat n) 0%N body s.

(** A loop whose condition is not a plain integer bound.  Every loop below
    that is written this way touches its buffer at a counter that grows with
    each turn, so it leaves the buffer, which is undefined behaviour, before
    [fuel] (the length of that buffer and one more) is used up. *)
Fixpoint while_loop {S : Type} (fuel : nat) (cond : S -> bool)
    (body : S -> option S) (s : S) : option S :=
  match fuel with
  | O => None
  | Datatypes.S f =>
      if cond s then s' ← body s; while_loop f cond body s' else Some s
  end.

(** [p[i]] and [p[i] = v] through a pointer [p] that may be [NULL]. *)
Definition load_at (p : option (list D)) (i : N) : option D :=
  buf ← p; load buf i.

Definition store_at (p : option (list D)) (i : N) (v : D)
    : option (option (list D)) :=
  buf ← p; buf' ← store buf i v; Some (Some buf').

Definition buf_len (p : option (list D)) : nat := from_option length 0%nat p.

End Buffers.

(** ** Tensors ([include/tensor/tensor.h]) *)

Module Tensor.
Section Tensor.
Context {D : Type}.

(** [struct tensor].  [node] and [grad] are kept as addresses. *)
Record tensor : Type := mk_tensor {
  data : option (list D);
  shape : list N;
  data_size : N;
  shape_size : N;
  node : option N;
  grad : option N
}.

(** [t->shape[k]]: the array has [TENSOR_MAX_SHAPE_SIZE] slots, of which the
    kernels read the first two; a slot the list does not give holds 0. *)
Definition dim (t : tensor) (k : nat) : N := nth k (shape t) 0%N.

Definition set_data (t : tensor) (p : option (list D)) : tensor :=
  {| data := p; shape := shape t; data_size := data_size t;
     shape_size := shape_size t; node := node t; grad := grad t |}.

(** The buffer of a rank-2 tensor as the allocators build it: [data_size]
    elements, [data_size] the product of the two dimensions. *)
Definition wf2d (t : tensor) : Prop :=
  data_size t = (dim t 0 * dim t 1)%N
  /\ buf_len (data t) = N.to_nat (data_size t)
  /\ (data_size t < 2 ^ SIZE_WIDTH)%N.

(** Modelled from the spec: [tensor_same_shape] is declared in [tensor.h]
    and defined in a file that is not among the sources; its documentation
    there reads "True if the tensors have the same shape, otherwise false". *)
Definition tensor_same_shape (A B : tensor) : bool :=
  bool_decide (shape_size A = shape_size B
               /\ take (N.to_nat (shape_size A)) (shape A)
                  = take (N.to_nat (shape_size A)) (shape B)).

Definition tensor_check_null (t : option tensor) : cgrad_error :=
  match t with
  | None => TENSOR_NULL
  | Some t =>
      match data t with
      | None => TENSOR_DATA_NULL
      | Some _ => NO_ERROR
      end
  end.

Definition tensor2d_set_unchecked (t : tensor) (row col : N) (value : D)
    : option tensor :=
  p ← store_at (data t) (size_add (size_mul row (dim t 1)) col) value;
  Some (set_data t p).

(** Returns the status and the tensor behind [t] after the call. *)
Definition tensor2d_set (t : option tensor) (row col : N) (value : D)
    : option (cgrad_error * option tensor) :=
  match t with
  | None => Some (TENSOR_NULL, t)
  | Some t0 =>
      match data t0 with
      | None => Some (TENSOR_DATA_NULL, t)
      | Some buf =>
          if negb (shape_size t0 =? 2)%N then Some (TENSOR_WRONG_SHAPE, t)
          else if (dim t0 0 <=? row)%N || (dim t0 1 <=? col)%N
          then Some (TENSOR_INDEX_OUT_OF_BOUNDS, t)
          else
            buf' ← store buf (size_add (size_mul row (dim t0 1)) col) value;
            Some (NO_ERROR, Some (set_data t0 (Some buf')))
      end
  end.

(** Returns the status and the contents of [*value] after the call. *)
Definition tensor2d_get (t : option tensor) (row col : N) (value : D)
    : option (cgrad_error * D) :=
  let error := tensor_check_null t in
  if negb (bool_decide (error = NO_ERROR)) then Some (error, value)
  else
    t0 ← t;
    if negb (shape_size t0 =? 2)%N then Some (TENSOR_WRONG_SHAPE, value)
    else if (dim t0 0 <=? row)%N || (dim t0 1 <=? col)%N
    then Some (TENSOR_INDEX_OUT_OF_BOUNDS, value)
    else
      buf ← data t0;
      v ← load buf (size_add (size_mul row (dim t0 1)) col);
      Some (NO_ERROR, v).

End Tensor.
Arguments tensor : clear implicits.
End Tensor.
Import Tensor.

(** ** Backward rules and the context they run in
    ([autograd/backpropagation/backpropagation.h]) *)

(** The function pointer a link carries, by the kernel it points to. *)
Inductive backward_fn : Set :=
| relu_backpropagate_fn
| linear_backpropagate_input_fn
| linear_backpropagate_weights_fn
| linear_backpropagate_bias_fn
| mse_loss_backpropagate_predicted_fn
| mse_loss_backpropagate_target_fn.

#[global] Instance backward_fn_eq_dec : EqDecision backward_fn.
Proof. solve_decision. Defined.

(** Modelled from the spec: the tensor allocator's pool is not among the
    sources.  The spec (4.1) gives [alloc_no_grad(shape)]: an untracked
    tensor (no node, no grad) of that shape from a pool that can run out;
    the buffer is not cleared, so it holds whatever the pool left in it
    ([stale]). *)
Record tensor_allocator (D : Type) : Type := {
  free_tensors : nat;
  stale : D
}.
Arguments free_tensors {D} _.
Arguments stale {D} _.

(** [struct backpropagation_context]: the operand snapshot of the consumer
    and the allocator for scratch tensors. *)
Record backpropagation_context (D : Type) : Type := {
  operands : list (option (tensor D));
  owned_allocator : tensor_allocator D
}.
Arguments operands {D} _.
Arguments owned_allocator {D} _.

(** [ctx->operands[k]]; [None] when the slot holds [NULL]. *)
Definition operand {D} (ctx : backpropagation_context D) (k : N)
    : option (tensor D) :=
  mjoin (operands ctx !! N.to_nat k).

(** ** ReLU ([src/layers/relu.c]) *)

Module Relu.
Section Relu.
Context {D : Type} {SD : Scalar D}.
Local Open Scope dbl_scope.

(** [enum relu_layer_operand] *)
Definition RELU_ONLY_OPERAND : N := 0.

Definition AVX_DOUBLE_NUMBER : N := 4.

(** [x > 0 ? x : 0] *)
Definition relu_scalar (x : D) : D :=
  if of_int 0 <? x then x else of_int 0.

Definition relu_forward_unchecked_scalar (x out : tensor D)
    : option (tensor D) :=
  p ← for_size (data_size out)
        (fun i p => xi ← load_at (data x) i; store_at p i (relu_scalar xi))
        (data out);
  Some (set_data out p).

(** [_mm256_max_pd(a, b)] gives, lane by lane, [a > b ? a : b]. *)
Definition mm256_max_pd (a b : list D) : list D :=
  zip_with (fun ai bi => if bi <? ai then ai else bi) a b.

(** [_mm256_loadu_pd(&p[i])] and [_mm256_storeu_pd(&p[i], v)]: four
    consecutive doubles. *)
Definition mm256_loadu_pd (p : option (list D)) (i : N) : option (list D) :=
  mapM (fun k => load_at p (i + k)%N) [0; 1; 2; 3]%N.

Definition mm256_storeu_pd (p : option (list D)) (i : N) (v : list D)
    : option (option (list D)) :=
  foldl (fun acc '(k, vk) => p' ← acc; store_at p' (i + k)%N vk)
        (Some p) (zip [0; 1; 2; 3]%N v).

Definition relu_forward_unchecked_avx_256 (x out : tensor D)
    : option (tensor D) :=
  let zeros_vals := replicate 4 (of_int 0) in
  '(i, p) ← while_loop (S (buf_len (data out)))
     (fun '(i, _) =>
        (size_sub (size_add i AVX_DOUBLE_NUMBER) 1 <? data_size x)%N)
     (fun '(i, p) =>
        x_vals ← mm256_loadu_pd (data x) i;
        let relu_vals := mm256_max_pd zeros_vals x_vals in
        p' ← mm256_storeu_pd p i relu_vals;
        Some (size_add i AVX_DOUBLE_NUMBER, p'))
     (0%N, data out);
  p ← for_loop (N.to_nat (data_size x - i)) i
        (fun i p => xi ← load_at (data x) i; store_at p i (relu_scalar xi))
        p;
  Some (set_data out p).

(** [simd] stands for the build's [SIMD_LEVEL >= 256]. *)
Definition relu_forward_unchecked (simd : bool) (x out : tensor D)
    : option (tensor D) :=
  if simd then relu_forward_unchecked_avx_256 x out
  else relu_forward_unchecked_scalar x out.

(** Returns the status and the tensor behind [out] after the call. *)
Definition relu_forward (simd : bool) (x out : option (tensor D))
    : option (cgrad_error * option (tensor D)) :=
  match x, out with
  | Some x0, Some out0 =>
      match data x0, data out0 with
      | Some _, Some _ =>
          if negb (tensor_same_shape x0 out0)
          then Some (TENSOR_SHAPE_MISMATCH, out)
          else
            out' ← relu_forward_unchecked simd x0 out0;
            Some (NO_ERROR, Some out')
      | _, _ => Some (TENSOR_DATA_NULL, out)
      end
  | _, _ => Some (TENSOR_NULL, out)
  end.

(** [(x_data[i] > 0 ? 1 : 0) * grad_wrt_out->data[i]] *)
Definition relu_grad (xi gi : D) : D :=
  (if of_int 0 <? xi then of_int 1 else of_int 0) * gi.

(** Returns the tensor behind [grad_wrt_operand] after the call. *)
Definition relu_backpropagate (ctx : backpropagation_context D)
    (grad_wrt_out grad_wrt_operand : tensor D) : option (tensor D) :=
  x ← operand ctx RELU_ONLY_OPERAND;
  let x_data := data x in
  let grad_wrt_operand_data := data grad_wrt_operand in
  let grad_wrt_operand_data_size := data_size grad_wrt_operand in
  p ← for_size grad_wrt_operand_data_size
        (fun i p =>
           xi ← load_at x_data i;
           gi ← load_at (data grad_wrt_out) i;
           store_at p i (relu_grad xi gi))
        grad_wrt_operand_data;
  Some (set_data grad_wrt_operand p).

(** The graph and its allocators are reached through [ag_allocators];
    [add_computational_graph_link] is not among the sources, so the graph
    adapters take it, and the state [G] it works on, as they find it.  It
    returns its status, the consumer (whose [node] it may attach) and the
    state after the call. *)
Context {G : Type}.
Variable add_computational_graph_link :
  tensor D -> N -> tensor D -> backward_fn -> G -> cgrad_error * tensor D * G.

(** Returns the status, the tensor behind [out] and the graph state after
    the call. *)
Definition relu_forward_graph (simd : bool) (x out : option (tensor D))
    (ag_allocators : G) : option (cgrad_error * option (tensor D) * G) :=
  '(error, out1) ← relu_forward simd x out;
  if negb (bool_decide (error = NO_ERROR))
  then Some (error, out1, ag_allocators)
  else
    x0 ← x; out0 ← out1;
    let '(error, out2, g) :=
      add_computational_graph_link x0 RELU_ONLY_OPERAND out0
        relu_backpropagate_fn ag_allocators in
    Some (error, Some out2, g).

End Relu.
End Relu.

(** ** MSE loss (the source file that includes [losses/mse.h]) *)

Module Mse.
Section Mse.
Context {D : Type} {SD : Scalar D}.
Local Open Scope dbl_scope.

(** [enum mse_loss_operand] *)
Definition MSE_PREDICTED : N := 0.
Definition MSE_TARGET : N := 1.

(** One turn of the summation loop of [mse_loss]: the state is the counter
    [i] and the buffer behind [z->data]. *)
Definition mse_loss_step (y_pred y_target : tensor D)
    (s : N * option (list D)) : option (N * option (list D)) :=
  let '(i, zd) := s in
  pi ← load_at (data y_pred) i;
  ti ← load_at (data y_target) i;
  let difference := pi - ti in
  z0 ← load_at zd 0;
  zd' ← store_at zd 0 (z0 + (half * difference * difference));
  Some (size_add i 1, zd').

(** Returns the status and the tensor behind [z] after the call. *)
Definition mse_loss (y_pred y_target z : option (tensor D))
    : option (cgrad_error * option (tensor D)) :=
  match y_pred, y_target, z with
  | Some p, Some t, Some z0 =>
      match data p, data t, data z0 with
      | Some _, Some _, Some _ =>
          if negb (data_size p =? data_size t)%N
          then Some (TENSOR_DATA_SIZE_MISMATCH, z)
          else if negb (tensor_same_shape p t)
          then Some (TENSOR_SHAPE_MISMATCH, z)
          else
            let batch_size := of_size (dim p 0) in
            zd ← store_at (data z0) 0 (of_int 0);
            '(_, zd) ← while_loop (S (buf_len (data p)))
                         (fun '(i, _) => of_size i <? batch_size)
                         (mse_loss_step p t) (0%N, zd);
            z0v ← load_at zd 0;
            zd ← store_at zd 0 (z0v / batch_size);
            Some (NO_ERROR, Some (set_data z0 zd))
      | _, _, _ => Some (TENSOR_DATA_NULL, z)
      end
  | _, _, _ => Some (TENSOR_NULL, z)
  end.

(** One turn of the loop of [mse_loss_backpropagate_predicted]. *)
Definition mse_backward_step (predicted : option (tensor D))
    (target : tensor D) (batch_size : D)
    (s : N * option (list D)) : option (N * option (list D)) :=
  let '(i, gd) := s in
  pi ← load_at (predicted ≫= data) i;
  ti ← load_at (data target) i;
  gd' ← store_at gd i ((pi - ti) / batch_size);
  Some (size_add i 1, gd').

(** Returns the tensor behind [grad_wrt_operand] after the call. *)
Definition mse_loss_backpropagate_predicted (ctx : backpropagation_context D)
    (grad_wrt_out grad_wrt_operand : tensor D) : option (tensor D) :=
  let predicted := operand ctx MSE_PREDICTED in
  target ← operand ctx MSE_TARGET;
  let batch_size := of_size (dim target 0) in
  '(_, gd) ← while_loop (S (buf_len (data grad_wrt_operand)))
               (fun '(i, _) => of_size i <? batch_size)
               (mse_backward_step predicted target batch_size)
               (0%N, data grad_wrt_operand);
  Some (set_data grad_wrt_operand gd).

Definition mse_loss_backpropagate_target (ctx : backpropagation_context D)
    (grad_wrt_out grad_wrt_operand : tensor D) : option (tensor D) :=
  g ← mse_loss_backpropagate_predicted ctx grad_wrt_out grad_wrt_operand;
  gd ← for_size (dim g 0)
         (fun i gd => v ← load_at gd i; store_at gd i (v * of_int (-1)))
         (data g);
  Some (set_data g gd).

Context {G : Type}.
Variable add_computational_graph_link :
  tensor D -> N -> tensor D -> backward_fn -> G -> cgrad_error * tensor D * G.

(** Returns the status, the tensor behind [z] and the graph state after the
    call.  The statuses of the two registrations are not looked at. *)
Definition mse_loss_graph (y_pred y_target z : option (tensor D))
    (ag_allocators : G) : option (cgrad_error * option (tensor D) * G) :=
  '(err, z1) ← mse_loss y_pred y_target z;
  if negb (bool_decide (err = NO_ERROR))
  then Some (err, z1, ag_allocators)
  else
    p ← y_pred; t ← y_target; z0 ← z1;
    let '(_, z2, g1) :=
      add_computational_graph_link p MSE_PREDICTED z0
        mse_loss_backpropagate_predicted_fn ag_allocators in
    let '(_, z3, g2) :=
      add_computational_graph_link t MSE_TARGET z2
        mse_loss_backpropagate_target_fn g1 in
    Some (NO_ERROR, Some z3, g2).

End Mse.
End Mse.

(** ** Linear layer ([src/layers/linear.c]) *)

Module Linear.
Section Linear.
Context {D : Type} {SD : Scalar D}.
Local Open Scope dbl_scope.

(** [enum linear_layer_operand] *)
Definition INPUT : N := 0.
Definition WEIGHTS : N := 1.
Definition BIAS : N := 2.

Definition AVX_DOUBLE_NUMBER : N := 4.

(** Modelled from the spec: [tensor_allocator_no_grad_alloc] and
    [tensor_allocator_no_grad_free] are not among the sources; see
    [tensor_allocator]. *)
Definition tensor_allocator_no_grad_alloc (a : tensor_allocator D)
    (shape : list N) (shape_size : N)
    : option (tensor D) * tensor_allocator D :=
  match free_tensors a with
  | O => (None, a)
  | S n =>
      let size := foldr N.mul 1%N (take (N.to_nat shape_size) shape) in
      (Some {| data := Some (replicate (N.to_nat size) (stale a));
               Tensor.shape := shape; data_size := size;
               Tensor.shape_size := shape_size;
               node := None; grad := None |},
       {| free_tensors := n; stale := stale a |})
  end.

Definition tensor_allocator_no_grad_free (a : tensor_allocator D)
    (t : option (tensor D)) : tensor_allocator D :=
  match t with
  | None => a
  | Some _ => {| free_tensors := S (free_tensors a); stale := stale a |}
  end.

(** The indices [0], ..., [n - 1]. *)
Definition indices (n : N) : list N := N.of_nat <$> seq 0 (N.to_nat n).

(** Element [(i, j)] of a row-major buffer with [cols] columns. *)
Definition at2d (buf : list D) (cols i j : N) : option D :=
  load buf (i * cols + j).

(** Modelled from the spec: [tensor2d_trans] is not among the sources.  It
    is the transpose kernel of the spec: it validates its arguments as the
    kernels of the library do and writes [dst[j][i] = src[i][j]]. *)
Definition tensor2d_trans (src dst : option (tensor D))
    : option (cgrad_error * option (tensor D)) :=
  match src, dst with
  | Some s, Some d =>
      match data s, data d with
      | Some sb, Some _ =>
          if negb (bool_decide (dim d 0 = dim s 1 /\ dim d 1 = dim s 0))
          then Some (TENSOR_SHAPE_MISMATCH, dst)
          else
            db ← mapM (fun ji => at2d sb (dim s 1) ji.2 ji.1)
                  (j ← indices (dim s 1); i ← indices (dim s 0); [(j, i)]);
            Some (NO_ERROR, Some (set_data d (Some db)))
      | _, _ => Some (TENSOR_DATA_NULL, dst)
      end
  | _, _ => Some (TENSOR_NULL, dst)
  end.

(** The inner product of row [i] of [A] and column [j] of [B], summed from
    0 in the order of the index. *)
Definition dot (ab bb : list D) (inner cols i j : N) : option D :=
  foldl (fun acc l =>
           s ← acc; a ← at2d ab inner i l; b ← at2d bb cols l j;
           Some (s + a * b))
        (Some (of_int 0)) (indices inner).

(** Modelled from the spec: [tensor2d_mult] is not among the sources.  It is
    the matrix product kernel of the spec: it validates its arguments as the
    kernels of the library do and writes [out = A B]. *)
Definition tensor2d_mult (A B out : option (tensor D))
    : option (cgrad_error * option (tensor D)) :=
  match A, B, out with
  | Some a, Some b, Some o =>
      match data a, data b, data o with
      | Some ab, Some bb, Some _ =>
          if negb (bool_decide (dim a 1 = dim b 0 /\ dim o 0 = dim a 0
                                /\ dim o 1 = dim b 1))
          then Some (TENSOR_SHAPE_MISMATCH, out)
          else
            ob ← mapM (fun ij => dot ab bb (dim a 1) (dim b 1) ij.1 ij.2)
                  (i ← indices (dim a 0); j ← indices (dim b 1); [(i, j)]);
            Some (NO_ERROR, Some (set_data o (Some ob)))
      | _, _, _ => Some (TENSOR_DATA_NULL, out)
      end
  | _, _, _ => Some (TENSOR_NULL, out)
  end.

(** Returns the tensor behind [grad_wrt_operand] and the allocator after
    the call. *)
Definition linear_backpropagate_input (ctx : backpropagation_context D)
    (grad_wrt_out grad_wrt_operand : tensor D)
    : option (tensor D * tensor_allocator D) :=
  rhs ← operand ctx WEIGHTS;
  let t_allocator := owned_allocator ctx in
  let shape := [dim rhs 1; dim rhs 0] in
  let shape_size := 2%N in
  let '(rhs_trans, t_allocator) :=
    tensor_allocator_no_grad_alloc t_allocator shape shape_size in
  '(_, rhs_trans) ← tensor2d_trans (Some rhs) rhs_trans;
  '(_, g) ← tensor2d_mult (Some grad_wrt_out) rhs_trans (Some grad_wrt_operand);
  g ← g;
  Some (g, tensor_allocator_no_grad_free t_allocator rhs_trans).

Definition linear_backpropagate_weights (ctx : backpropagation_context D)
    (grad_wrt_out grad_wrt_operand : tensor D)
    : option (tensor D * tensor_allocator D) :=
  lhs ← operand ctx INPUT;
  let t_allocator := owned_allocator ctx in
  let shape := [dim lhs 1; dim lhs 0] in
  let shape_size := 2%N in
  let '(lhs_trans, t_allocator) :=
    tensor_allocator_no_grad_alloc t_allocator shape shape_size in
  '(_, lhs_trans) ← tensor2d_trans (Some lhs) lhs_trans;
  '(_, g) ← tensor2d_mult lhs_trans (Some grad_wrt_out) (Some grad_wrt_operand);
  g ← g;
  Some (g, tensor_allocator_no_grad_free t_allocator lhs_trans).

(** [_mm256_add_pd] *)
Definition mm256_add_pd (a b : list D) : list D := zip_with dadd a b.

(** One turn of the vector loop of [linear_backpropagate_bias_avx_256] in
    row [i]: the state is the column [j] and the buffer behind
    [grad_wrt_operand->data]. *)
Definition bias_avx_step (grad_wrt_out : tensor D) (i G_cols : N)
    (s : N * option (list D)) : option (N * option (list D)) :=
  let '(j, gd) := s in
  grad_wrt_operand_vals ← Relu.mm256_loadu_pd gd j;
  grad_wrt_out_vals ←
    Relu.mm256_loadu_pd (data grad_wrt_out) (size_add (size_mul i G_cols) j);
  let sum := mm256_add_pd grad_wrt_operand_vals grad_wrt_out_vals in
  gd' ← Relu.mm256_storeu_pd gd j sum;
  Some (size_add j AVX_DOUBLE_NUMBER, gd').

Definition linear_backpropagate_bias_avx_256 (ctx : backpropagation_context D)
    (grad_wrt_out grad_wrt_operand : tensor D) : option (tensor D) :=
  let G_rows := dim grad_wrt_out 0 in
  let G_cols := dim grad_wrt_out 1 in
  gd ← for_size G_rows
         (fun i gd =>
            let row_offset := size_mul i G_cols in
            '(j, gd) ← while_loop (S (buf_len gd))
               (fun '(j, _) =>
                  (size_sub (size_add j AVX_DOUBLE_NUMBER) 1 <? G_cols)%N)
               (bias_avx_step grad_wrt_out i G_cols) (0%N, gd);
            for_loop (N.to_nat (G_cols - j)) j
              (fun j gd =>
                 a ← load_at gd (size_add row_offset j);
                 b ← load_at (data grad_wrt_out) j;
                 store_at gd (size_add row_offset j) (a + b))
              gd)
         (data grad_wrt_operand);
  Some (set_data grad_wrt_operand gd).

Definition linear_backpropagate_bias_scalar (ctx : backpropagation_context D)
    (grad_wrt_out grad_wrt_operand : tensor D) : option (tensor D) :=
  let G_rows := dim grad_wrt_out 0 in
  let G_cols := dim grad_wrt_out 1 in
  gd ← for_size G_rows
         (fun i gd =>
            for_size G_cols
              (fun j gd =>
                 a ← load_at gd j;
                 b ← load_at (data grad_wrt_out) (size_add (size_mul i G_cols) j);
                 store_at gd j (a + b))
              gd)
         (data grad_wrt_operand);
  Some (set_data grad_wrt_operand gd).

(** [avx] stands for the build's [SIMD_AVX_LEVEL >= SIMD_AVX_LEVEL_256]. *)
Definition linear_backpropagate_bias (avx : bool)
    (ctx : backpropagation_context D)
    (grad_wrt_out grad_wrt_operand : tensor D) : option (tensor D) :=
  if avx then linear_backpropagate_bias_avx_256 ctx grad_wrt_out grad_wrt_operand
  else linear_backpropagate_bias_scalar ctx grad_wrt_out grad_wrt_operand.

End Linear.
End Linear.

(** ** Linear layer: forward pass and graph adapter
    ([src/layers/linear.c]) *)

Module LinearForward.
Section LinearForward.
Context {D : Type} {G : Type}.

(** [struct linear_layer], without its two allocator pointers: the graph
    state they lead to is handed to the functions below as [G]. *)
Record linear_layer : Type := {
  in_dim : N;
  out_dim : N;
  weights : option (tensor D);
  biases : option (tensor D)
}.

(** [tensor2d_mult], [tensor2d_add_row_vector] and
    [add_computational_graph_link] are not among the sources: the functions
    below take them as they find them.  Each returns its status and the
    tensor behind its output after the call; the registration also returns
    the graph state. *)
Variable tensor2d_mult :
  option (tensor D) -> option (tensor D) -> option (tensor D) ->
  option (cgrad_error * option (tensor D)).
Variable tensor2d_add_row_vector :
  option (tensor D) -> option (tensor D) -> option (tensor D) ->
  option (cgrad_error * option (tensor D)).
Variable add_computational_graph_link :
  option (tensor D) -> N -> option (tensor D) -> backward_fn -> G ->
  cgrad_error * option (tensor D) * G.

(** Returns the status and the tensor behind [out] after the call.  The sum
    with the biases is taken in place: [out] is both an argument and the
    output of [tensor2d_add_row_vector]. *)
Definition linear_forward (x : option (tensor D)) (layer : linear_layer)
    (out : option (tensor D)) : option (cgrad_error * option (tensor D)) :=
  '(error, out1) ← tensor2d_mult x (weights layer) out;
  if negb (bool_decide (error = NO_ERROR)) then Some (error, out1)
  else tensor2d_add_row_vector out1 (biases layer) out1.

Definition linear_update_computational_graph (x : option (tensor D))
    (layer : linear_layer) (out : option (tensor D)) (ag_allocators : G)
    : cgrad_error * option (tensor D) * G :=
  let '(err, out1, g1) :=
    add_computational_graph_link x Linear.INPUT out
      linear_backpropagate_input_fn ag_allocators in
  if negb (bool_decide (err = NO_ERROR)) then (err, out1, g1)
  else
    let '(err, out2, g2) :=
      add_computational_graph_link (weights layer) Linear.WEIGHTS out1
        linear_backpropagate_weights_fn g1 in
    if negb (bool_decide (err = NO_ERROR)) then (err, out2, g2)
    else
      add_computational_graph_link (biases layer) Linear.BIAS out2
        linear_backpropagate_bias_fn g2.

Definition linear_forward_graph (x : option (tensor D))
    (layer : linear_layer) (out : option (tensor D)) (ag_allocators : G)
    : option (cgrad_error * option (tensor D) * G) :=
  '(err, out1) ← linear_forward x layer out;
  if negb (bool_decide (err = NO_ERROR)) then Some (err, out1, ag_allocators)
  else Some (linear_update_computational_graph x layer out1 ag_allocators).

End LinearForward.
Arguments linear_layer : clear implicits.
End LinearForward.

(** ** Graph node and link store (spec 4.2) *)

Module Graph.

(** [MAX_OPERANDS]: the width of an operand snapshot. *)
Definition MAX_OPERANDS : nat := 4.

(** A link of an operand's node.  A tensor is known to the graph by the
    address of its node; the snapshot of a link is the one the store keeps
    for its consumer, which is how all links of one consumer share it. *)
Record link : Set := {
  consumer : N;
  operand_index : N;
  backward : backward_fn
}.

(** The store behind [struct autograd_allocators]: the outgoing links of
    every node, the operand snapshot of every consumer, what the node and
    link pools can still serve, and the next free address. *)
Record graph : Type := {
  nodes : gmap N (list link);
  snapshots : gmap N (list (option N));
  free_nodes : nat;
  free_links : nat;
  next_node : N
}.

Definition link_count (g : graph) : nat :=
  map_fold (fun _ ls n => (length ls + n)%nat) 0%nat (nodes g).

Section AddLink.
Context {D : Type}.

Definition set_node (t : tensor D) (n : N) : tensor D :=
  {| data := data t; shape := shape t; data_size := data_size t;
     shape_size := shape_size t; node := Some n; grad := grad t |}.

(** Modelled from the spec: [add_computational_graph_link] is not among the
    sources.  The steps are those of the contract of [add_link] in the spec
    (4.2): an operand without a node is refused with [MISSING_NODE]; a
    consumer without a node gets one; the consumer's snapshot is found, or
    made with [MAX_OPERANDS] empty slots; the operand is written at its
    index; a link record is appended to the operand's outgoing links;
    [OUT_OF_MEMORY] comes from the pools. *)
Definition add_computational_graph_link (operand : tensor D)
    (operand_index : N) (consumer : tensor D) (fn : backward_fn) (g : graph)
    : cgrad_error * tensor D * graph :=
  match node operand with
  | None => (MISSING_NODE, consumer, g)
  | Some o =>
      let attached :=
        match node consumer with
        | Some c => Some (c, consumer, g)
        | None =>
            match free_nodes g with
            | O => None
            | S n =>
                let c := next_node g in
                Some (c, set_node consumer c,
                      {| nodes := <[c := []]> (nodes g);
                         snapshots := snapshots g;
                         free_nodes := n; free_links := free_links g;
                         next_node := N.succ c |})
            end
        end in
      match attached with
      | None => (OUT_OF_MEMORY, consumer, g)
      | Some (c, consumer', g1) =>
          match free_links g1 with
          | O => (OUT_OF_MEMORY, consumer', g1)
          | S n =>
              let snapshot :=
                default (replicate MAX_OPERANDS None) (snapshots g1 !! c) in
              let l := {| consumer := c; operand_index := operand_index;
                          backward := fn |} in
              (NO_ERROR, consumer',
               {| nodes := <[o := default [] (nodes g1 !! o) ++ [l]]> (nodes g1);
                  snapshots :=
                    <[c := <[N.to_nat operand_index := Some o]> snapshot]>
                      (snapshots g1);
                  free_nodes := free_nodes g1; free_links := n;
                  next_node := next_node g1 |})
          end
      end
  end.

End AddLink.
End Graph.

(** ** What the specification says, in its own words *)

Section Claims.
Context {D : Type}.

(** A rank-2 tensor without a node, of the given shape and contents. *)
Definition matrix (rows cols : N) (buf : list D) : tensor D :=
  {| data := Some buf; shape := [rows; cols]; data_size := rows * cols;
     shape_size := 2; node := None; grad := None |}.

(** The case in which the accessors succeed. *)
Definition access_ok (t : option (tensor D)) (row col : N) : Prop :=
  exists t0 buf,
    t = Some t0 /\ data t0 = Some buf /\ shape_size t0 = 2%N
    /\ (row < dim t0 0)%N /\ (col < dim t0 1)%N.

(** The status of a failing access, by precedence. *)
Definition access_error (t : option (tensor D)) : cgrad_error :=
  match t with
  | None => TENSOR_NULL
  | Some t0 =>
      match data t0 with
      | None => TENSOR_DATA_NULL
      | Some _ =>
          if bool_decide (shape_size t0 = 2%N)
          then TENSOR_INDEX_OUT_OF_BOUNDS
          else TENSOR_WRONG_SHAPE
      end
  end.

(** A tensor of shape [(rows, cols)]. *)
Definition has_shape (t : tensor D) (rows cols : N) : Prop :=
  shape_size t = 2%N /\ take 2 (shape t) = [rows; cols].

End Claims.

Section LossClaims.
Context {D : Type} {SD : Scalar D}.
Local Open Scope dbl_scope.

(** The sum of [0.5 * (p - t)^2] over the pairs of the two lists, added to
    [acc] from the left, with the products taken as the kernel takes them. *)
Definition sum_half_squares (acc : D) (ps ts : list D) : D :=
  foldl (fun acc pt => acc + half * (pt.1 - pt.2) * (pt.1 - pt.2))
        acc (zip ps ts).

(** The mean over the batch of the halved squared errors. *)
Definition mean_half_squares (ps ts : list D) (batch : N) : D :=
  sum_half_squares (of_int 0) ps ts / of_size batch.

(** Column [j] of the rows [first], ..., [first + count - 1] of a row-major
    buffer with [cols] columns, added to [acc] from the left in the order of
    the rows. *)
Definition column_sum (acc : D) (g : list D) (cols j first count : nat) : D :=
  foldl (fun s i => s + default (of_int 0) (g !! (i * cols + j)%nat))
        acc (seq first count).

(** What [_mm256_max_pd] leaves in a lane of the AVX forward ReLU:
    [0 > x ? 0 : x]. *)
Definition relu_lane (x : D) : D :=
  if x <? of_int 0 then of_int 0 else x.

(** The chain rule for the predicted operand of the MSE loss: the upstream
    gradient [seed] of the loss times the local derivative
    [(p - t) / batch], element by element. *)
Definition mse_chain_rule (seed : D) (ps ts : list D) (batch : N) : list D :=
  zip_with (fun p t => seed * ((p - t) / of_size batch)) ps ts.

End LossClaims.

(** ** Proof tools for runs in the [option] monad *)

(** Follows a defined run [H : m ≫= f = Some r] through its steps. *)
Ltac bind_inv H :=
  repeat (simpl in H;
          match type of H with
          | (?m ≫= _) = Some _ => destruct m as [?|]; [|discriminate H]
          | match ?p with (_, _) => _ end = Some _ => destruct p
          end);
  simpl in H.

(** Splits an equation between two runs in the [option] monad on the
    outcome of the computation both start with. *)
Ltac bind_cases :=
  repeat (simpl;
          match goal with
          | |- (?m ≫= _) = _ => destruct m; [|reflexivity]
          end);
  simpl; try reflexivity.

(** * Properties *)

(** ** [size_t] arithmetic and buffers *)

Lemma size_wrap_small (n : N) : (n < 2 ^ SIZE_WIDTH)%N -> size_wrap n = n.
Proof. intros Hn. unfold size_wrap. now apply N.mod_small. Qed.

Lemma index2d_in_range (rows cols row col : N) :
  (row < rows)%N -> (col < cols)%N -> (rows * cols < 2 ^ SIZE_WIDTH)%N ->
  size_add (size_mul row cols) col = (row * cols + col)%N
  /\ (row * cols + col < rows * cols)%N.
Proof.
  intros Hr Hc Hfit.
  assert (Hlt : (row * cols + col < rows * cols)%N) by nia.
  split; [|exact Hlt].
  unfold size_add, size_mul.
  rewrite (size_wrap_small (row * cols)) by nia.
  apply size_wrap_small. lia.
Qed.

(** ** binary64: integers below [2^53] convert exactly *)

Section Binary64Facts.
Local Open Scope Z_scope.

Lemma digits2_pos_bounds (m : positive) :
  2 ^ (Zpos (digits2_pos m) - 1) <= Zpos m < 2 ^ Zpos (digits2_pos m).
Proof.
  induction m as [p IH|p IH|]; simpl digits2_pos.
  - rewrite Pos2Z.inj_succ.
    replace (Z.succ (Zpos (digits2_pos p)) - 1) with (Z.succ (Zpos (digits2_pos p) - 1)) by lia.
    rewrite !Z.pow_succ_r by lia. lia.
  - rewrite Pos2Z.inj_succ.
    replace (Z.succ (Zpos (digits2_pos p)) - 1) with (Z.succ (Zpos (digits2_pos p) - 1)) by lia.
    rewrite !Z.pow_succ_r by lia. lia.
  - simpl. lia.
Qed.

Lemma iter_xO_mul (m k : positive) :
  Zpos (Pos.iter xO m k) = Zpos m * 2 ^ Zpos k.
Proof.
  induction k as [|k IH] using Pos.peano_ind.
  - simpl. lia.
  - rewrite Pos.iter_succ, Pos2Z.inj_xO, IH, Pos2Z.inj_succ, Z.pow_succ_r by lia. lia.
Qed.

Lemma digits2_iter_xO (m k : positive) :
  digits2_pos (Pos.iter xO m k) = (digits2_pos m + k)%positive.
Proof.
  induction k as [|k IH] using Pos.peano_ind.
  - simpl. lia.
  - rewrite Pos.iter_succ. simpl. rewrite IH. lia.
Qed.

Lemma binary_round_aux_canonical (mz : positive) (ez : Z) :
  Zpos (digits2_pos mz) = 53 -> -1074 <= ez <= 971 ->
  binary_round_aux prec emax false (Zpos mz) ez loc_Exact = S754_finite false mz ez.
Proof.
  intros Hd He. unfold binary_round_aux, shr_fexp. cbn [Zdigits2 shr_record_of_loc].
  rewrite Hd.
  assert (Hf : fexp prec emax (53 + ez) = ez).
  { unfold fexp, emin, prec, emax. lia. }
  rewrite Hf, Z.sub_diag. cbn [shr shr_m loc_of_shr_record round_nearest_even Zdigits2 shr_record_of_loc].
  rewrite Hd, Hf, Z.sub_diag. cbn [shr shr_m].
  destruct (Z.leb_spec ez (emax - prec)) as [_|H]; [reflexivity|].
  unfold emax, prec in H. lia.
Qed.

Lemma binary_round_small (m : positive) :
  Zpos m < 2 ^ 53 ->
  binary_round prec emax false m 0
  = S754_finite false (norm_mant m) (Zpos (digits2_pos m) - 53)
  /\ Zpos (norm_mant m) = Zpos m * 2 ^ (53 - Zpos (digits2_pos m))
  /\ Zpos (digits2_pos (norm_mant m)) = 53
  /\ 1 <= Zpos (digits2_pos m) <= 53.
Proof.
  intros Hm. pose proof (digits2_pos_bounds m) as [Hlo Hhi].
  assert (Hd : Zpos (digits2_pos m) <= 53).
  { destruct (Z.le_gt_cases (Zpos (digits2_pos m)) 53) as [H|H]; [exact H|].
    assert (2 ^ 53 <= 2 ^ (Zpos (digits2_pos m) - 1)) by (apply Z.pow_le_mono_r; lia).
    lia. }
  unfold binary_round, norm_mant.
  rewrite Z.add_0_r.
  assert (Hf : fexp prec emax (Zpos (digits2_pos m)) = Zpos (digits2_pos m) - 53).
  { unfold fexp, emin, prec, emax. lia. }
  rewrite Hf. unfold shl_align. rewrite Z.sub_0_r.
  destruct (Zpos (digits2_pos m) - 53) as [|k|k] eqn:Hk; try lia.
  - assert (Hd53 : Zpos (digits2_pos m) = 53) by lia.
    rewrite Hd53. cbn [Z.sub Z.add Z.opp Z.pos_sub]. simpl.
    rewrite binary_round_aux_canonical by (try exact Hd53; lia).
    split; [reflexivity|]. split; [lia|]. split; [exact Hd53|lia].
  - assert (Hk' : 53 - Zpos (digits2_pos m) = Zpos k) by lia.
    rewrite Hk'.
    rewrite binary_round_aux_canonical.
    + split; [reflexivity|]. rewrite iter_xO_mul, digits2_iter_xO.
      split; [lia|]. split; lia.
    + rewrite digits2_iter_xO. lia.
    + lia.
Qed.

Lemma Prim2SF_Z2double_pos (m : positive) :
  Zpos m < 2 ^ 53 ->
  Prim2SF (Z2double (Zpos m))
  = S754_finite false (norm_mant m) (Zpos (digits2_pos m) - 53).
Proof.
  intros Hm. destruct (binary_round_small m Hm) as (Hr & _ & Hd & Hb).
  unfold Z2double. cbn [binary_normalize]. rewrite Hr.
  apply Prim2SF_SF2Prim. unfold valid_binary, bounded, canonical_mantissa.
  rewrite Hd. apply andb_true_intro. split.
  - apply Z.eqb_eq. unfold fexp, emin, prec, emax. lia.
  - apply Z.leb_le. unfold prec, emax. lia.
Qed.

Lemma Z2double_ltb_pos (i n : positive) :
  Zpos i < 2 ^ 53 -> Zpos n < 2 ^ 53 ->
  PrimFloat.ltb (Z2double (Zpos i)) (Z2double (Zpos n)) = (Zpos i <? Zpos n).
Proof.
  intros Hi Hn. rewrite ltb_spec, !Prim2SF_Z2double_pos by assumption.
  destruct (binary_round_small i Hi) as (_ & Hmi & _ & Hbi).
  destruct (binary_round_small n Hn) as (_ & Hmn & _ & Hbn).
  pose proof (digits2_pos_bounds i) as [Hilo Hihi].
  pose proof (digits2_pos_bounds n) as [Hnlo Hnhi].
  unfold SFltb, SFcompare.
  destruct (Z.compare_spec (Zpos (digits2_pos i) - 53) (Zpos (digits2_pos n) - 53))
    as [He|He|He].
  - assert (Hd : Zpos (digits2_pos i) = Zpos (digits2_pos n)) by lia.
    change (Pos.compare_cont Eq (norm_mant i) (norm_mant n))
      with (Zpos (norm_mant i) ?= Zpos (norm_mant n)).
    rewrite Hmi, Hmn, Hd.
    assert (Hpow : 0 < 2 ^ (53 - Zpos (digits2_pos n))) by (apply Z.pow_pos_nonneg; lia).
    destruct (Z.compare_spec (Zpos i * 2 ^ (53 - Zpos (digits2_pos n)))
                (Zpos n * 2 ^ (53 - Zpos (digits2_pos n)))) as [Hc|Hc|Hc];
      destruct (Z.ltb_spec (Zpos i) (Zpos n)); try reflexivity; nia.
  - assert (2 ^ Zpos (digits2_pos i) <= 2 ^ (Zpos (digits2_pos n) - 1))
      by (apply Z.pow_le_mono_r; lia).
    destruct (Z.ltb_spec (Zpos i) (Zpos n)); [reflexivity | lia].
  - assert (2 ^ Zpos (digits2_pos n) <= 2 ^ (Zpos (digits2_pos i) - 1))
      by (apply Z.pow_le_mono_r; lia).
    destruct (Z.ltb_spec (Zpos i) (Zpos n)); [lia | reflexivity].
Qed.

Lemma Z2double_ltb (i n : Z) :
  0 <= i < 2 ^ 53 -> 0 <= n < 2 ^ 53 ->
  PrimFloat.ltb (Z2double i) (Z2double n) = (i <? n).
Proof.
  intros Hi Hn.
  destruct i as [|i|i], n as [|n|n]; try lia.
  - reflexivity.
  - rewrite ltb_spec, Prim2SF_Z2double_pos by lia. reflexivity.
  - rewrite ltb_spec, Prim2SF_Z2double_pos by lia. reflexivity.
  - apply Z2double_ltb_pos; lia.
Qed.

Lemma shr_52 (m : positive) :
  SpecFloat.iter_pos shr_1 52
    {| shr_m := Zpos (Pos.iter xO m 52); shr_r := false; shr_s := false |}
  = {| shr_m := Zpos m; shr_r := false; shr_s := false |}.
Proof. reflexivity. Qed.

Lemma binary_round_aux_shift (s : bool) (m : positive) (e : Z) :
  bounded prec emax m e = true ->
  binary_round_aux prec emax s (Zpos (m * 4503599627370496)) (e + -52) loc_Exact
  = S754_finite s m e.
Proof.
  intros Hb. apply andb_prop in Hb as [Hc He].
  apply Z.eqb_eq in Hc. apply Z.leb_le in He.
  rewrite Pos.mul_comm.
  change (4503599627370496 * m)%positive with (Pos.iter xO m 52).
  unfold binary_round_aux, shr_fexp.
  cbn [Zdigits2 shr_record_of_loc]. rewrite digits2_iter_xO.
  replace (Zpos (digits2_pos m + 52) + (e + -52)) with (Zpos (digits2_pos m) + e) by lia.
  rewrite Hc. replace (e - (e + -52)) with 52 by lia.
  cbn [shr]. rewrite shr_52.
  cbn [shr_m loc_of_shr_record round_nearest_even Zdigits2 shr_record_of_loc].
  replace (e + -52 + 52) with e by lia.
  rewrite Hc, Z.sub_diag. cbn [shr shr_m].
  destruct (Z.leb_spec e (emax - prec)); [reflexivity | lia].
Qed.

(** On binary64 the product with [-1] is the negation, exactly and for every
    value. *)
Lemma binary64_mul_neg1 (x : float) :
  (x * Z2double (-1))%float = (- x)%float.
Proof.
  apply Prim2SF_inj. rewrite mul_spec, opp_spec.
  pose proof (Prim2SF_valid x) as Hv.
  assert (H1 : Prim2SF (Z2double (-1)) = S754_finite true 4503599627370496 (-52))
    by (vm_compute; reflexivity).
  rewrite H1. destruct (Prim2SF x) as [s|s| |s m e].
  - now destruct s.
  - now destruct s.
  - reflexivity.
  - unfold SF64mul, SFmul, SFopp.
    rewrite binary_round_aux_shift by exact Hv. now destruct s.
Qed.

(** On binary64 the [double] bound of a loop counts like the [size_t] it
    was converted from, for every bound below [2^53]. *)
Lemma binary64_size_exact (n : N) :
  (n < 2 ^ 53)%N -> size_exact (SD := binary64) n.
Proof.
  intros Hn i Hi. unfold of_size, dlt. simpl.
  rewrite Z2double_ltb by lia.
  destruct (Z.ltb_spec (Z.of_N i) (Z.of_N n)), (N.ltb_spec i n);
    try reflexivity; lia.
Qed.

End Binary64Facts.

Section BufferFacts.
Context {D : Type}.
Implicit Types (buf : list D) (p : option (list D)).

Lemma store_Some buf i v :
  (N.to_nat i < length buf)%nat ->
  store buf i v = Some (<[N.to_nat i := v]> buf).
Proof. intros Hi. unfold store. now rewrite decide_True. Qed.

Lemma store_None buf i v :
  (length buf <= N.to_nat i)%nat -> store buf i v = None.
Proof. intros Hi. unfold store. rewrite decide_False; [done | lia]. Qed.

Lemma load_Some buf i :
  (N.to_nat i < length buf)%nat -> exists v, load buf i = Some v.
Proof. intros Hi. unfold load. now apply lookup_lt_is_Some_2. Qed.

End BufferFacts.

(** ** Tensor accessors *)

Section TensorFacts.
Context {D : Type}.
Implicit Types (t : option (tensor D)).

Lemma tensor2d_access_error t row col (value old : D) :
  ~ access_ok t row col ->
  tensor2d_set t row col value = Some (access_error t, t)
  /\ tensor2d_get t row col old = Some (access_error t, old)
  /\ access_error t <> NO_ERROR.
Proof.
  intros Hno. destruct t as [t0|]; [|done].
  unfold tensor2d_set, tensor2d_get, tensor_check_null, access_error.
  destruct (data t0) as [buf|] eqn:Hdata; [|done]. simpl.
  destruct (N.eqb_spec (shape_size t0) 2) as [Hrank|Hrank]; simpl.
  - rewrite bool_decide_true by done.
    destruct (N.leb_spec (dim t0 0) row) as [Hrow|Hrow]; simpl; [done|].
    destruct (N.leb_spec (dim t0 1) col) as [Hcol|Hcol]; simpl; [done|].
    exfalso. apply Hno. now exists t0, buf.
  - now rewrite bool_decide_false.
Qed.

Lemma tensor2d_access_ok (t0 : tensor D) buf row col (value old : D) :
  data t0 = Some buf -> shape_size t0 = 2%N ->
  (row < dim t0 0)%N -> (col < dim t0 1)%N -> wf2d t0 ->
  let k := N.to_nat (row * dim t0 1 + col) in
  exists v,
    buf !! k = Some v
    /\ tensor2d_set (Some t0) row col value
       = Some (NO_ERROR, Some (set_data t0 (Some (<[k := value]> buf))))
    /\ tensor2d_get (Some t0) row col old = Some (NO_ERROR, v).
Proof.
  intros Hdata Hrank Hrow Hcol (Hsize & Hlen & Hfit) k.
  rewrite Hdata in Hlen. simpl in Hlen. rewrite Hsize in Hlen, Hfit.
  destruct (index2d_in_range _ _ _ _ Hrow Hcol Hfit) as [Hidx Hin].
  assert (Hk : (k < length buf)%nat) by (unfold k; lia).
  destruct (lookup_lt_is_Some_2 buf k Hk) as [v Hv].
  exists v. split; [exact Hv|].
  unfold tensor2d_set, tensor2d_get, tensor_check_null.
  rewrite Hdata, Hrank. simpl.
  destruct (N.leb_spec (dim t0 0) row) as [?|_]; [lia|].
  destruct (N.leb_spec (dim t0 1) col) as [?|_]; [lia|]. simpl.
  rewrite Hdata, Hidx. simpl.
  rewrite store_Some by exact Hk. unfold load. fold k. rewrite Hv, Hrank.
  done.
Qed.

End TensorFacts.

Lemma access_ok_dec {D} (t : option (tensor D)) (row col : N) :
  access_ok t row col \/ ~ access_ok t row col.
Proof.
  destruct t as [t0|]; [|right; intros (? & ? & [=] & _)].
  destruct (data t0) as [buf|] eqn:Hdata;
    [|right; intros (? & ? & [= <-] & ? & _); congruence].
  destruct (decide (shape_size t0 = 2%N)) as [Hrank|Hrank];
    [|right; intros (? & ? & [= <-] & _ & ? & _); congruence].
  destruct (decide (row < dim t0 0)%N) as [Hrow|Hrow];
    [|right; intros (? & ? & [= <-] & _ & _ & ? & _); congruence].
  destruct (decide (col < dim t0 1)%N) as [Hcol|Hcol];
    [|right; intros (? & ? & [= <-] & _ & _ & _ & ?); congruence].
  left. now exists t0, buf.
Qed.

(** C9.  [tensor2d_set] and [tensor2d_get] return the same status [e].  It
    is [NO_ERROR] exactly when the tensor and its data are not null, the
    rank is 2, [row < shape[0]] and [col < shape[1]]; then [set] replaces
    the element at [row * shape[1] + col] and nothing else, and [get] reads
    that element.  In every other case the status is, by precedence,
    [TENSOR_NULL], [TENSOR_DATA_NULL], [TENSOR_WRONG_SHAPE] or
    [TENSOR_INDEX_OUT_OF_BOUNDS], the tensor is as it was, and so is
    [*value].  Only the successful access asks something of the buffer,
    that it has the size the shape gives; the refusals hold for every
    tensor, a rank-2 tensor with null data among them. *)
Theorem tensor2d_set_get_status {D} (t : option (tensor D)) (row col : N)
    (value old : D) :
  (forall t0, t = Some t0 -> access_ok t row col -> wf2d t0) ->
  exists e t' v',
    tensor2d_set t row col value = Some (e, t')
    /\ tensor2d_get t row col old = Some (e, v')
    /\ (e = NO_ERROR <-> access_ok t row col)
    /\ (access_ok t row col ->
        exists t0 buf,
          t = Some t0 /\ data t0 = Some buf
          /\ t' = Some (set_data t0
                   (Some (<[N.to_nat (row * dim t0 1 + col) := value]> buf)))
          /\ buf !! N.to_nat (row * dim t0 1 + col) = Some v')
    /\ (~ access_ok t row col -> e = access_error t /\ t' = t /\ v' = old).
Proof.
  intros Hwf. destruct (access_ok_dec t row col) as [Hok|Hno].
  - pose proof Hok as (t0 & buf & Ht & Hdata & Hrank & Hrow & Hcol).
    subst t.
    destruct (tensor2d_access_ok t0 buf row col value old Hdata Hrank Hrow Hcol
                (Hwf t0 eq_refl Hok)) as (v & Hv & Hset & Hget).
    exists NO_ERROR, (Some (set_data t0
      (Some (<[N.to_nat (row * dim t0 1 + col) := value]> buf)))), v.
    split; [exact Hset|]. split; [exact Hget|].
    split; [now split|]. split; [|now intros Hno].
    intros _. now exists t0, buf.
  - destruct (tensor2d_access_error t row col value old Hno)
      as (Hset & Hget & Herr).
    exists (access_error t), t, old.
    split; [exact Hset|]. split; [exact Hget|].
    split; [split; [intros He; now apply Herr in He | contradiction]|].
    split; [contradiction | done].
Qed.

Lemma tensor2d_set_get_status_witness :
  (let t := Some (matrix 2 3 [1; 0; 1; 0; 1; 1]%float) in
   (forall t0, t = Some t0 -> access_ok t 1 2 -> wf2d t0)
   /\ exists e t' v',
        tensor2d_set t 1 2 9%float = Some (e, t')
        /\ tensor2d_get t 1 2 7%float = Some (e, v')
        /\ (e = NO_ERROR <-> access_ok t 1 2)
        /\ (access_ok t 1 2 ->
            exists t0 buf,
              t = Some t0 /\ data t0 = Some buf
              /\ t' = Some (set_data t0
                       (Some (<[N.to_nat (1 * dim t0 1 + 2) := 9%float]> buf)))
              /\ buf !! N.to_nat (1 * dim t0 1 + 2) = Some v')
        /\ (~ access_ok t 1 2 ->
            e = access_error t /\ t' = t /\ v' = 7%float))
  /\ (let t := Some (set_data (matrix 2 3 ([] : list float)) None) in
      (forall t0, t = Some t0 -> access_ok t 1 2 -> wf2d t0)
      /\ exists e t' v',
           tensor2d_set t 1 2 9%float = Some (e, t')
           /\ tensor2d_get t 1 2 7%float = Some (e, v')
           /\ (e = NO_ERROR <-> access_ok t 1 2)
           /\ (access_ok t 1 2 ->
               exists t0 buf,
                 t = Some t0 /\ data t0 = Some buf
                 /\ t' = Some (set_data t0
                          (Some (<[N.to_nat (1 * dim t0 1 + 2) := 9%float]>
                                   buf)))
                 /\ buf !! N.to_nat (1 * dim t0 1 + 2) = Some v')
           /\ (~ access_ok t 1 2 ->
               e = access_error t /\ t' = t /\ v' = 7%float)).
Proof.
  assert (Hwf : forall t0 : tensor float,
             Some (matrix 2 3 [1; 0; 1; 0; 1; 1]%float) = Some t0 ->
             access_ok (Some (matrix 2 3 [1; 0; 1; 0; 1; 1]%float)) 1 2 ->
             wf2d t0).
  { intros t0 [= <-] _. repeat split. }
  assert (Hnull : forall t0 : tensor float,
             Some (set_data (matrix 2 3 ([] : list float)) None) = Some t0 ->
             access_ok (Some (set_data (matrix 2 3 ([] : list float)) None))
               1 2 ->
             wf2d t0).
  { intros t0 _ (t1 & buf & [= <-] & Hdata & _). discriminate Hdata. }
  split.
  - split; [exact Hwf|].
    exact (tensor2d_set_get_status _ 1%N 2%N 9%float 7%float Hwf).
  - split; [exact Hnull|].
    exact (tensor2d_set_get_status _ 1%N 2%N 9%float 7%float Hnull).
Defined.

(** ** Loops *)

Section LoopFacts.
Context {D : Type}.
Implicit Types (buf : list D) (p : option (list D)).

Lemma for_loop_S {S : Type} (count : nat) (start : N)
    (body : N -> S -> option S) (s : S) :
  for_loop (Datatypes.S count) start body s
  = s' ← body start s; for_loop count (N.succ start) body s'.
Proof. reflexivity. Qed.

(** A loop that stores at its counter a value that does not depend on what
    the earlier turns stored: it runs without undefined behaviour when the
    values are defined and the buffer is long enough, keeps the length, and
    leaves exactly those values at the counters it visited. *)
Lemma for_loop_store (g : N -> option D)
    (body : N -> option (list D) -> option (option (list D))) :
  (forall i p, body i p = v ← g i; store_at p i v) ->
  forall count start buf,
    (forall k, (k < count)%nat -> is_Some (g (start + N.of_nat k)%N)) ->
    (N.to_nat start + count <= length buf)%nat ->
    exists buf',
      for_loop count start body (Some buf) = Some (Some buf')
      /\ length buf' = length buf
      /\ (forall k, (k < count)%nat ->
            buf' !! (N.to_nat start + k)%nat = g (start + N.of_nat k)%N)
      /\ (forall j, (j < N.to_nat start \/ N.to_nat start + count <= j)%nat ->
            buf' !! j = buf !! j).
Proof.
  intros Hbody count. induction count as [|count IH]; intros start buf Hg Hlen.
  - exists buf. simpl. split; [done|]. split; [done|].
    split; [intros k Hk; lia | done].
  - destruct (Hg 0%nat ltac:(lia)) as [v Hv].
    rewrite N.add_0_r in Hv.
    destruct (IH (N.succ start) (<[N.to_nat start := v]> buf)) as
      (buf' & Hrun & Hlen' & Hin & Hout).
    + intros k Hk. replace (N.succ start + N.of_nat k)%N
        with (start + N.of_nat (S k))%N by lia.
      apply Hg. lia.
    + rewrite length_insert. lia.
    + exists buf'. split; [|split; [|split]].
      * simpl. rewrite Hbody, Hv. simpl. unfold store_at. simpl.
        rewrite store_Some by lia. simpl. exact Hrun.
      * now rewrite Hlen', length_insert.
      * intros [|k] Hk.
        -- rewrite Nat.add_0_r, N.add_0_r, Hv.
           rewrite Hout by lia. apply list_lookup_insert_eq. lia.
        -- replace (N.to_nat start + S k)%nat
             with (N.to_nat (N.succ start) + k)%nat by lia.
           rewrite Hin by lia. f_equal. lia.
      * intros j Hj. rewrite Hout by lia.
        apply list_lookup_insert_ne. lia.
Qed.

(** A loop that replaces the element at its counter by a function of that
    element. *)
Lemma for_loop_update (h : D -> D)
    (body : N -> option (list D) -> option (option (list D))) :
  (forall i p, body i p = v ← load_at p i; store_at p i (h v)) ->
  forall count start buf,
    (N.to_nat start + count <= length buf)%nat ->
    exists buf',
      for_loop count start body (Some buf) = Some (Some buf')
      /\ length buf' = length buf
      /\ (forall k, (k < count)%nat ->
            buf' !! (N.to_nat start + k)%nat
            = h <$> buf !! (N.to_nat start + k)%nat)
      /\ (forall j, (j < N.to_nat start \/ N.to_nat start + count <= j)%nat ->
            buf' !! j = buf !! j).
Proof.
  intros Hbody count. induction count as [|count IH]; intros start buf Hlen.
  - exists buf. simpl. split; [done|]. split; [done|].
    split; [intros k Hk; lia | done].
  - destruct (lookup_lt_is_Some_2 buf (N.to_nat start) ltac:(lia)) as [v Hv].
    destruct (IH (N.succ start) (<[N.to_nat start := h v]> buf)) as
      (buf' & Hrun & Hlen' & Hin & Hout).
    + rewrite length_insert. lia.
    + exists buf'. split; [|split; [|split]].
      * simpl. rewrite Hbody. unfold load_at, load, store_at. simpl.
        rewrite Hv. simpl. rewrite store_Some by lia. simpl. exact Hrun.
      * now rewrite Hlen', length_insert.
      * intros [|k] Hk.
        -- rewrite Nat.add_0_r, Hv. rewrite Hout by lia.
           apply list_lookup_insert_eq. lia.
        -- replace (N.to_nat start + S k)%nat
             with (N.to_nat (N.succ start) + k)%nat by lia.
           rewrite Hin by lia. f_equal.
           apply list_lookup_insert_ne. lia.
      * intros j Hj. rewrite Hout by lia.
        apply list_lookup_insert_ne. lia.
Qed.

(** A loop that combines the element at its counter with a value read
    elsewhere. *)
Lemma for_loop_accumulate (h : D -> D -> D) (g : N -> option D)
    (body : N -> option (list D) -> option (option (list D))) :
  (forall i p, body i p = v ← load_at p i; w ← g i; store_at p i (h v w)) ->
  forall count start buf,
    (forall k, (k < count)%nat -> is_Some (g (start + N.of_nat k)%N)) ->
    (N.to_nat start + count <= length buf)%nat ->
    exists buf',
      for_loop count start body (Some buf) = Some (Some buf')
      /\ length buf' = length buf
      /\ (forall k v w, (k < count)%nat ->
            buf !! (N.to_nat start + k)%nat = Some v ->
            g (start + N.of_nat k)%N = Some w ->
            buf' !! (N.to_nat start + k)%nat = Some (h v w))
      /\ (forall j, (j < N.to_nat start \/ N.to_nat start + count <= j)%nat ->
            buf' !! j = buf !! j).
Proof.
  intros Hbody count. induction count as [|count IH]; intros start buf Hg Hlen.
  - exists buf. simpl. split; [done|]. split; [done|].
    split; [intros k v w Hk; lia | done].
  - destruct (lookup_lt_is_Some_2 buf (N.to_nat start) ltac:(lia)) as [v0 Hv0].
    destruct (Hg 0%nat ltac:(lia)) as [w0 Hw0]. rewrite N.add_0_r in Hw0.
    destruct (IH (N.succ start) (<[N.to_nat start := h v0 w0]> buf)) as
      (buf' & Hrun & Hlen' & Hin & Hout).
    + intros k Hk. replace (N.succ start + N.of_nat k)%N
        with (start + N.of_nat (S k))%N by lia.
      apply Hg. lia.
    + rewrite length_insert. lia.
    + exists buf'. split; [|split; [|split]].
      * simpl. rewrite Hbody. unfold load_at, load, store_at. simpl.
        rewrite Hv0. simpl. rewrite Hw0. simpl.
        rewrite store_Some by lia. simpl. exact Hrun.
      * now rewrite Hlen', length_insert.
      * intros [|k] v w Hk Hv Hw.
        -- rewrite Nat.add_0_r in *. rewrite N.add_0_r in Hw.
           rewrite Hout by lia.
           rewrite list_lookup_insert_eq by lia. congruence.
        -- replace (N.to_nat start + S k)%nat
             with (N.to_nat (N.succ start) + k)%nat in * by lia.
           apply Hin; [lia| |].
           ++ rewrite list_lookup_insert_ne by lia. exact Hv.
           ++ rewrite <- Hw. f_equal. lia.
      * intros j Hj. rewrite Hout by lia.
        apply list_lookup_insert_ne. lia.
Qed.

End LoopFacts.

(** ** ReLU *)

Section ReluFacts.
Context {D : Type} {SD : Scalar D}.
Local Open Scope dbl_scope.

Lemma relu_backpropagate_pointwise (ctx : backpropagation_context D)
    (grad_wrt_out grad_wrt_operand x : tensor D) (xb gob gb : list D) :
  operand ctx Relu.RELU_ONLY_OPERAND = Some x ->
  data x = Some xb -> data grad_wrt_out = Some gob ->
  data grad_wrt_operand = Some gb ->
  let n := N.to_nat (data_size grad_wrt_operand) in
  (n <= length xb)%nat -> (n <= length gob)%nat -> (n <= length gb)%nat ->
  exists gb',
    Relu.relu_backpropagate ctx grad_wrt_out grad_wrt_operand
    = Some (set_data grad_wrt_operand (Some gb'))
    /\ length gb' = length gb
    /\ (forall i xi gi, (i < n)%nat ->
          xb !! i = Some xi -> gob !! i = Some gi ->
          gb' !! i
          = Some ((if of_int 0 <? xi then of_int 1 else of_int 0) * gi))
    /\ (forall i, (n <= i)%nat -> gb' !! i = gb !! i).
Proof.
  intros Hx Hxb Hgob Hgb n Hnx Hngo Hng.
  pose (g := fun i : N =>
    xi ← load_at (Some xb) i; gi ← load_at (Some gob) i;
    Some (Relu.relu_grad xi gi)).
  destruct (for_loop_store g
    (fun i p => xi ← load_at (Some xb) i; gi ← load_at (Some gob) i;
                store_at p i (Relu.relu_grad xi gi))) with
    (count := n) (start := 0%N) (buf := gb) as (gb' & Hrun & Hlen & Hin & Hout).
  - intros i p. unfold g. destruct (load_at (Some xb) i); [|done]. simpl.
    now destruct (load gob i).
  - intros k Hk. unfold g, load_at, load. simpl.
    rewrite N.add_0_l, Nat2N.id.
    destruct (lookup_lt_is_Some_2 xb k ltac:(lia)) as [xi ->].
    destruct (lookup_lt_is_Some_2 gob k ltac:(lia)) as [gi ->].
    simpl. eauto.
  - simpl. lia.
  - exists gb'. split; [|split; [exact Hlen | split]].
    + unfold Relu.relu_backpropagate. rewrite Hx. simpl.
      rewrite Hxb, Hgob, Hgb. unfold for_size. fold n. now rewrite Hrun.
    + intros i xi gi Hi Hxi Hgi. specialize (Hin i Hi). simpl in Hin.
      rewrite Hin. unfold g, load_at, load. simpl.
      rewrite N.add_0_l, Nat2N.id, Hxi, Hgi. done.
    + intros i Hi. apply Hout. simpl. lia.
Qed.

End ReluFacts.

(** C2.  [relu_backpropagate] writes, at every index [i] below the size of
    [grad_wrt_operand], the product of [x[i] > 0 ? 1 : 0] and
    [grad_wrt_out[i]], and touches nothing else.  On binary64, for
    [x = [[-1, 2, -3, 4]]] and an upstream gradient of ones, the gradient it
    leaves is [[0, 1, 0, 1]], whatever the scratch tensor held before. *)
Theorem relu_backpropagate_gradient :
  (forall (D : Type) (SD : Scalar D) (ctx : backpropagation_context D)
          (grad_wrt_out grad_wrt_operand x : tensor D) (xb gob gb : list D),
      operand ctx Relu.RELU_ONLY_OPERAND = Some x ->
      data x = Some xb -> data grad_wrt_out = Some gob ->
      data grad_wrt_operand = Some gb ->
      (N.to_nat (data_size grad_wrt_operand) <= length xb)%nat ->
      (N.to_nat (data_size grad_wrt_operand) <= length gob)%nat ->
      (N.to_nat (data_size grad_wrt_operand) <= length gb)%nat ->
      exists gb',
        Relu.relu_backpropagate ctx grad_wrt_out grad_wrt_operand
        = Some (set_data grad_wrt_operand (Some gb'))
        /\ length gb' = length gb
        /\ (forall i xi gi,
              (i < N.to_nat (data_size grad_wrt_operand))%nat ->
              xb !! i = Some xi -> gob !! i = Some gi ->
              gb' !! i
              = Some (dmul (if dlt (of_int 0) xi then of_int 1 else of_int 0)
                           gi))
        /\ (forall i, (N.to_nat (data_size grad_wrt_operand) <= i)%nat ->
              gb' !! i = gb !! i))
  /\ (forall (a : tensor_allocator float) (g0 g1 g2 g3 : float),
        Relu.relu_backpropagate
          {| operands := [Some (matrix 1 4 [-1; 2; -3; 4]%float)];
             owned_allocator := a |}
          (matrix 1 4 [1; 1; 1; 1]%float)
          (matrix 1 4 [g0; g1; g2; g3])
        = Some (matrix 1 4 [0; 1; 0; 1]%float)).
Proof.
  split.
  - intros D SD ctx grad_wrt_out grad_wrt_operand x xb gob gb.
    apply relu_backpropagate_pointwise.
  - intros a g0 g1 g2 g3. vm_compute. reflexivity.
Qed.

Lemma relu_backpropagate_gradient_witness :
  exists gb',
    Relu.relu_backpropagate
      {| operands := [Some (matrix 1 2 [-1; 2]%float)];
         owned_allocator := {| free_tensors := 0; stale := 0%float |} |}
      (matrix 1 2 [3; 5]%float) (matrix 1 2 [0; 0]%float)
    = Some (set_data (matrix 1 2 [0; 0]%float) (Some gb'))
    /\ length gb' = 2%nat
    /\ (forall i xi gi,
          (i < 2)%nat ->
          [-1; 2]%float !! i = Some xi -> [3; 5]%float !! i = Some gi ->
          gb' !! i
          = Some (dmul (if dlt (of_int 0) xi then of_int 1 else of_int 0) gi))
    /\ (forall i, (2 <= i)%nat -> gb' !! i = [0; 0]%float !! i).
Proof.
  apply (proj1 relu_backpropagate_gradient float binary64
           {| operands := [Some (matrix 1 2 [-1; 2]%float)];
              owned_allocator := {| free_tensors := 0; stale := 0%float |} |}
           (matrix 1 2 [3; 5]%float) (matrix 1 2 [0; 0]%float)
           (matrix 1 2 [-1; 2]%float) [-1; 2]%float [3; 5]%float
           [0; 0]%float);
    try reflexivity; simpl; lia.
Defined.

(** C8.  [relu_forward] returns [TENSOR_NULL] when [x] or [out] is null,
    [TENSOR_DATA_NULL] when a data buffer is null and
    [TENSOR_SHAPE_MISMATCH] when [tensor_same_shape] fails, and leaves [out]
    as it was each time.  [relu_forward_graph] returns an error of
    [relu_forward] as it is, with the graph state untouched (the
    registration is not reached); after a successful forward pass its
    result is that of the one call
    [add_computational_graph_link(x, RELU_ONLY_OPERAND, out,
    &relu_backpropagate, ag_allocators)] with [RELU_ONLY_OPERAND = 0],
    status included.  This holds for every implementation of the
    registration and for both builds of the kernel. *)
Theorem relu_forward_graph_status (D : Type) (SD : Scalar D) (simd : bool)
    (x out : option (tensor D)) :
  ((x = None \/ out = None) ->
     Relu.relu_forward simd x out = Some (TENSOR_NULL, out))
  /\ (forall x0 out0, x = Some x0 -> out = Some out0 ->
        data x0 = None \/ data out0 = None ->
        Relu.relu_forward simd x out = Some (TENSOR_DATA_NULL, out))
  /\ (forall x0 out0, x = Some x0 -> out = Some out0 ->
        data x0 <> None -> data out0 <> None ->
        tensor_same_shape x0 out0 = false ->
        Relu.relu_forward simd x out = Some (TENSOR_SHAPE_MISMATCH, out))
  /\ (forall (G : Type)
        (add_link : tensor D -> N -> tensor D -> backward_fn -> G ->
                    cgrad_error * tensor D * G)
        (g : G),
        (forall e out1,
            Relu.relu_forward simd x out = Some (e, out1) ->
            e <> NO_ERROR ->
            Relu.relu_forward_graph add_link simd x out g = Some (e, out1, g))
        /\ (forall out1,
              Relu.relu_forward simd x out = Some (NO_ERROR, out1) ->
              exists x0 o1,
                x = Some x0 /\ out1 = Some o1
                /\ Relu.RELU_ONLY_OPERAND = 0%N
                /\ Relu.relu_forward_graph add_link simd x out g
                   = Some (let '(e, o2, g') :=
                             add_link x0 Relu.RELU_ONLY_OPERAND o1
                               relu_backpropagate_fn g in
                           (e, Some o2, g')))).
Proof.
  split; [|split; [|split]].
  - intros [-> | ->]; [done | now destruct x].
  - intros x0 out0 -> -> Hnull. unfold Relu.relu_forward.
    destruct Hnull as [-> | Hout]; [done|].
    rewrite Hout. now destruct (data x0).
  - intros x0 out0 -> -> Hx Hout Hshape. unfold Relu.relu_forward.
    destruct (data x0); [|done]. destruct (data out0); [|done].
    now rewrite Hshape.
  - intros G add_link g. split.
    + intros e out1 Hfwd He. unfold Relu.relu_forward_graph.
      rewrite Hfwd. simpl. now rewrite bool_decide_false.
    + intros out1 Hfwd.
      assert (Hx : exists x0 o1, x = Some x0 /\ out1 = Some o1).
      { unfold Relu.relu_forward in Hfwd.
        destruct x as [x0|], out as [out0|]; try discriminate.
        destruct (data x0), (data out0); try discriminate.
        destruct (tensor_same_shape x0 out0); [|discriminate].
        simpl in Hfwd.
        destruct (Relu.relu_forward_unchecked simd x0 out0) as [o1|];
          [|discriminate].
        injection Hfwd as <-. now exists x0, o1. }
      destruct Hx as (x0 & o1 & -> & ->). exists x0, o1.
      split; [done|]. split; [done|]. split; [done|].
      unfold Relu.relu_forward_graph. rewrite Hfwd. simpl.
      now destruct (add_link x0 Relu.RELU_ONLY_OPERAND o1
                      relu_backpropagate_fn g) as [[e o2] g'].
Qed.

Lemma relu_forward_graph_status_witness :
  Relu.relu_forward false None (Some (matrix 1 1 [2%float]))
  = Some (TENSOR_NULL, Some (matrix 1 1 [2%float]))
  /\ Relu.relu_forward_graph
       (D := float) (G := unit) (fun _ _ t _ g => (NO_ERROR, t, g))
       false None (Some (matrix 1 1 [2%float])) ()
     = Some (TENSOR_NULL, Some (matrix 1 1 [2%float]), ()).
Proof.
  pose proof (relu_forward_graph_status float binary64 false None
                (Some (matrix 1 1 [2%float]))) as (Hnull & _ & _ & Hgraph).
  split.
  - apply Hnull. now left.
  - apply (proj1 (Hgraph unit (fun _ _ t _ g => (NO_ERROR, t, g)) ())).
    + apply Hnull. now left.
    + discriminate.
Defined.

(** ** MSE loss *)

Lemma has_shape_dim {D} (t : tensor D) (rows cols : N) :
  has_shape t rows cols -> dim t 0 = rows /\ dim t 1 = cols.
Proof.
  intros [_ Htake]. unfold dim.
  destruct (shape t) as [|r [|c l]]; simpl in Htake; try discriminate.
  now injection Htake as -> ->.
Qed.

Lemma has_shape_same {D} (a b : tensor D) (rows cols : N) :
  has_shape a rows cols -> has_shape b rows cols ->
  tensor_same_shape a b = true.
Proof.
  intros [Ha Hta] [Hb Htb]. unfold tensor_same_shape.
  apply bool_decide_eq_true. rewrite Ha, Hb. split; [done|].
  change (N.to_nat 2) with 2%nat. now rewrite Hta, Htb.
Qed.

Section MseFacts.
Context {D : Type} {SD : Scalar D}.
Local Open Scope dbl_scope.

(** A loop bounded by a [double] that was converted from the [size_t] [n]
    takes the [n] turns of the integer loop, and ends with its counter at
    [n], when the conversion is exact for [n] and the fuel covers the
    turns. *)
Lemma while_loop_counts {S : Type} (n : N) (f : N -> S -> option S)
    (cond : N * S -> bool) (step : N * S -> option (N * S)) :
  size_exact n -> (n < 2 ^ SIZE_WIDTH)%N ->
  (forall i s, cond (i, s) = (of_size i <? of_size n)) ->
  (forall i s, step (i, s) = s' ← f i s; Some (size_add i 1, s')) ->
  forall count fuel i s,
    (i + N.of_nat count = n)%N -> (count < fuel)%nat ->
    while_loop fuel cond step (i, s)
    = s' ← for_loop count i f s; Some (n, s').
Proof.
  intros Hexact Hfit Hcond Hstep count.
  induction count as [|count IH]; intros fuel i s Hi Hfuel;
    (destruct fuel as [|fuel]; [lia|]); simpl.
  - rewrite Hcond, Hexact by lia.
    destruct (N.ltb_spec i n); [lia|]. f_equal. f_equal. lia.
  - rewrite Hcond, Hexact by lia.
    destruct (N.ltb_spec i n); [|lia].
    rewrite Hstep. destruct (f i s) as [s'|]; [|done]. simpl.
    unfold size_add. rewrite size_wrap_small by lia.
    replace (i + 1)%N with (N.succ i) by lia.
    apply IH; lia.
Qed.

(** The summation loop of [mse_loss], turn by turn. *)
Lemma mse_sum_loop (pb tb : list D) :
  forall count start zb acc,
    zb !! 0%nat = Some acc ->
    (N.to_nat start + count <= length pb)%nat ->
    (N.to_nat start + count <= length tb)%nat ->
    for_loop count start
      (fun i zd =>
         pi ← load_at (Some pb) i; ti ← load_at (Some tb) i;
         z0 ← load_at zd 0;
         store_at zd 0 (z0 + half * (pi - ti) * (pi - ti)))
      (Some zb)
    = Some (Some (<[0%nat :=
         sum_half_squares acc (take count (drop (N.to_nat start) pb))
                              (take count (drop (N.to_nat start) tb))]> zb)).
Proof.
  induction count as [|count IH]; intros start zb acc Hacc Hp Ht.
  - simpl. unfold sum_half_squares. simpl.
    now rewrite list_insert_id.
  - assert (Hz : (0 < length zb)%nat) by (eapply lookup_lt_Some; eauto).
    destruct (lookup_lt_is_Some_2 pb (N.to_nat start) ltac:(lia)) as [p0 Hp0].
    destruct (lookup_lt_is_Some_2 tb (N.to_nat start) ltac:(lia)) as [t0 Ht0].
    simpl. unfold load_at, load. simpl. rewrite Hp0, Ht0. simpl.
    change (N.to_nat 0) with 0%nat. rewrite Hacc. simpl.
    unfold store_at. simpl. rewrite store_Some by exact Hz. simpl.
    change (N.to_nat 0) with 0%nat.
    rewrite (IH (N.succ start) _ (acc + half * (p0 - t0) * (p0 - t0)));
      [|apply list_lookup_insert_eq; exact Hz|lia|lia].
    rewrite list_insert_insert_eq. do 3 f_equal.
    rewrite (drop_S pb p0 (N.to_nat start)) by exact Hp0.
    rewrite (drop_S tb t0 (N.to_nat start)) by exact Ht0.
    rewrite N2Nat.inj_succ. reflexivity.
Qed.

End MseFacts.

Section MseLoss.
Context {D : Type} {SD : Scalar D}.
Local Open Scope dbl_scope.
Local Arguments while_loop : simpl never.
Local Arguments for_loop : simpl never.

Lemma wf2d_column (t : tensor D) (buf : list D) (batch : N) :
  data t = Some buf -> has_shape t batch 1 -> wf2d t ->
  data_size t = batch /\ length buf = N.to_nat batch
  /\ (batch < 2 ^ SIZE_WIDTH)%N.
Proof.
  intros Hdata Hshape (Hsize & Hlen & Hfit).
  destruct (has_shape_dim _ _ _ Hshape) as [H0 H1].
  rewrite H0, H1, N.mul_1_r in Hsize. rewrite Hdata in Hlen. simpl in Hlen.
  rewrite Hsize in Hlen, Hfit. done.
Qed.

Lemma mse_loss_value (p t z : tensor D) (pb tb zb : list D) (batch : N) :
  data p = Some pb -> data t = Some tb -> data z = Some zb ->
  has_shape p batch 1 -> has_shape t batch 1 -> wf2d p -> wf2d t ->
  (0 < length zb)%nat -> size_exact batch ->
  Mse.mse_loss (Some p) (Some t) (Some z)
  = Some (NO_ERROR,
          Some (set_data z
                  (Some (<[0%nat := mean_half_squares pb tb batch]> zb)))).
Proof.
  intros Hp Ht Hz Hsp Hst Hwp Hwt Hzlen Hexact.
  destruct (wf2d_column p pb batch Hp Hsp Hwp) as (Hps & Hpl & Hfit).
  destruct (wf2d_column t tb batch Ht Hst Hwt) as (Hts & Htl & _).
  destruct (has_shape_dim _ _ _ Hsp) as [Hdim _].
  unfold Mse.mse_loss. rewrite Hp, Ht, Hz, Hps, Hts, N.eqb_refl.
  rewrite (has_shape_same p t batch 1 Hsp Hst). simpl.
  unfold store_at at 1. simpl. rewrite store_Some by exact Hzlen. simpl.
  change (N.to_nat 0) with 0%nat. rewrite Hdim.
  rewrite (while_loop_counts batch
    (fun i zd =>
       pi ← load_at (Some pb) i; ti ← load_at (Some tb) i;
       z0 ← load_at zd 0;
       store_at zd 0 (z0 + half * (pi - ti) * (pi - ti)))
    _ _ Hexact Hfit) with (count := N.to_nat batch).
  - rewrite (mse_sum_loop pb tb _ _ _ (of_int 0));
      [|apply list_lookup_insert_eq; exact Hzlen|simpl; lia|simpl; lia].
    simpl. rewrite !drop_0, !firstn_all2 by lia.
    unfold load_at, load. simpl. change (N.to_nat 0) with 0%nat.
    rewrite list_lookup_insert_eq by (rewrite length_insert; exact Hzlen).
    simpl. unfold store_at. simpl.
    rewrite store_Some by (rewrite !length_insert; exact Hzlen). simpl.
    change (N.to_nat 0) with 0%nat. now rewrite !list_insert_insert_eq.
  - now intros i s.
  - intros i zd. unfold Mse.mse_loss_step. rewrite Hp, Ht. bind_cases.
  - lia.
  - simpl. lia.
Qed.

End MseLoss.

Section MseBackward.
Context {D : Type} {SD : Scalar D}.
Local Open Scope dbl_scope.
Local Arguments while_loop : simpl never.
Local Arguments for_loop : simpl never.

Lemma mse_backward_predicted_pointwise (ctx : backpropagation_context D)
    (grad_wrt_out grad_wrt_operand predicted target : tensor D)
    (pb tb gb : list D) :
  operand ctx Mse.MSE_PREDICTED = Some predicted ->
  operand ctx Mse.MSE_TARGET = Some target ->
  data predicted = Some pb -> data target = Some tb ->
  data grad_wrt_operand = Some gb ->
  let batch := dim target 0 in
  size_exact batch -> (batch < 2 ^ SIZE_WIDTH)%N ->
  (N.to_nat batch <= length pb)%nat -> (N.to_nat batch <= length tb)%nat ->
  (N.to_nat batch <= length gb)%nat ->
  exists gb',
    Mse.mse_loss_backpropagate_predicted ctx grad_wrt_out grad_wrt_operand
    = Some (set_data grad_wrt_operand (Some gb'))
    /\ length gb' = length gb
    /\ (forall i pi ti, (i < N.to_nat batch)%nat ->
          pb !! i = Some pi -> tb !! i = Some ti ->
          gb' !! i = Some ((pi - ti) / of_size batch))
    /\ (forall i, (N.to_nat batch <= i)%nat -> gb' !! i = gb !! i).
Proof.
  intros Hp Ht Hpb Htb Hgb batch Hexact Hfit Hnp Hnt Hng.
  pose (g := fun i : N =>
    pi ← load_at (Some pb) i; ti ← load_at (Some tb) i;
    Some ((pi - ti) / of_size batch)).
  pose (f := fun (i : N) (gd : option (list D)) =>
    pi ← load_at (Some pb) i; ti ← load_at (Some tb) i;
    store_at gd i ((pi - ti) / of_size batch)).
  destruct (for_loop_store g f) with
    (count := N.to_nat batch) (start := 0%N) (buf := gb)
    as (gb' & Hrun & Hlen & Hin & Hout).
  - intros i p. unfold f, g. bind_cases.
  - intros k Hk. unfold g, load_at, load. simpl.
    rewrite N.add_0_l, Nat2N.id.
    destruct (lookup_lt_is_Some_2 pb k ltac:(lia)) as [pi ->].
    destruct (lookup_lt_is_Some_2 tb k ltac:(lia)) as [ti ->].
    simpl. eauto.
  - simpl. lia.
  - exists gb'. split; [|split; [exact Hlen | split]].
    + unfold Mse.mse_loss_backpropagate_predicted. rewrite Hp, Ht. simpl.
      fold batch. rewrite Hgb.
      rewrite (while_loop_counts batch f _ _ Hexact Hfit)
        with (count := N.to_nat batch).
      * rewrite Hrun. reflexivity.
      * now intros i s.
      * intros i gd. unfold Mse.mse_backward_step, f. simpl.
        rewrite Hpb, Htb. bind_cases.
      * lia.
      * simpl. lia.
    + intros i pi ti Hi Hpi Hti. specialize (Hin i Hi). simpl in Hin.
      rewrite Hin. unfold g, load_at, load. simpl.
      rewrite N.add_0_l, Nat2N.id, Hpi, Hti. done.
    + intros i Hi. apply Hout. simpl. lia.
Qed.

Lemma mse_backward_target_negates (ctx : backpropagation_context D)
    (grad_wrt_out grad_wrt_operand predicted target : tensor D)
    (pb tb gb : list D) :
  operand ctx Mse.MSE_PREDICTED = Some predicted ->
  operand ctx Mse.MSE_TARGET = Some target ->
  data predicted = Some pb -> data target = Some tb ->
  data grad_wrt_operand = Some gb ->
  let batch := dim target 0 in
  dim grad_wrt_operand 0 = batch ->
  size_exact batch -> (batch < 2 ^ SIZE_WIDTH)%N ->
  (N.to_nat batch <= length pb)%nat -> (N.to_nat batch <= length tb)%nat ->
  (N.to_nat batch <= length gb)%nat ->
  exists gp gt,
    Mse.mse_loss_backpropagate_predicted ctx grad_wrt_out grad_wrt_operand
    = Some (set_data grad_wrt_operand (Some gp))
    /\ Mse.mse_loss_backpropagate_target ctx grad_wrt_out grad_wrt_operand
       = Some (set_data grad_wrt_operand (Some gt))
    /\ length gp = length gb /\ length gt = length gp
    /\ (forall i v, (i < N.to_nat batch)%nat ->
          gp !! i = Some v -> gt !! i = Some (v * of_int (-1)))
    /\ (forall i, (N.to_nat batch <= i)%nat -> gt !! i = gp !! i).
Proof.
  intros Hp Ht Hpb Htb Hgb batch Hdim Hexact Hfit Hnp Hnt Hng.
  destruct (mse_backward_predicted_pointwise ctx grad_wrt_out grad_wrt_operand
              predicted target pb tb gb Hp Ht Hpb Htb Hgb Hexact Hfit
              Hnp Hnt Hng) as (gp & Hrun & Hlen & _ & _).
  destruct (for_loop_update (fun v => v * of_int (-1))
              (fun i gd => v ← load_at gd i; store_at gd i (v * of_int (-1))))
    with (count := N.to_nat batch) (start := 0%N) (buf := gp)
    as (gt & Hneg & Hlen' & Hin & Hout).
  - done.
  - simpl. lia.
  - exists gp, gt. split; [exact Hrun|].
    split; [|split; [exact Hlen|split; [exact Hlen'|split]]].
    + unfold Mse.mse_loss_backpropagate_target. rewrite Hrun. simpl.
      unfold for_size.
      change (dim (set_data grad_wrt_operand (Some gp)) 0)
        with (dim grad_wrt_operand 0).
      rewrite Hdim, Hneg. reflexivity.
    + intros i v Hi Hv. specialize (Hin i Hi). simpl in Hin.
      now rewrite Hin, Hv.
    + intros i Hi. apply Hout. simpl. lia.
Qed.

End MseBackward.

(** C3.  On binary64, for column vectors [y_pred] and [y_target] of the same
    shape [(batch, 1)] (with the buffers that shape gives, [batch] below
    [2^53]) and an output [z] with room for one element, [mse_loss] returns
    [NO_ERROR] and leaves in [z->data[0]] the sum over the batch of
    [0.5 * (y_pred[i] - y_target[i])^2], added up from 0 in the order of
    [i], divided by [batch]; the rest of [z] is as it was.  For
    [y_pred = [[1],[2],[3],[4]]] and [y_target = [[1],[1],[1],[1]]] the loss
    is exactly [1.75]. *)
Theorem mse_loss_mean :
  (forall (p t z : tensor float) (pb tb zb : list float) (batch : N),
      data p = Some pb -> data t = Some tb -> data z = Some zb ->
      has_shape p batch 1 -> has_shape t batch 1 -> wf2d p -> wf2d t ->
      (0 < length zb)%nat -> (batch < 2 ^ 53)%N ->
      Mse.mse_loss (Some p) (Some t) (Some z)
      = Some (NO_ERROR,
              Some (set_data z
                      (Some (<[0%nat := mean_half_squares pb tb batch]> zb)))))
  /\ (forall z0 : float,
        Mse.mse_loss (Some (matrix 4 1 [1; 2; 3; 4]%float))
                     (Some (matrix 4 1 [1; 1; 1; 1]%float))
                     (Some (matrix 1 1 [z0]))
        = Some (NO_ERROR, Some (matrix 1 1 [1.75%float]))).
Proof.
  split.
  - intros p t z pb tb zb batch Hp Ht Hz Hsp Hst Hwp Hwt Hzb Hbatch.
    apply mse_loss_value; try assumption.
    now apply binary64_size_exact.
  - intros z0. vm_compute. reflexivity.
Qed.

Lemma mse_loss_mean_witness :
  Mse.mse_loss (Some (matrix 2 1 [3; 5]%float))
               (Some (matrix 2 1 [1; 1]%float))
               (Some (matrix 1 1 [0%float]))
  = Some (NO_ERROR,
          Some (set_data (matrix 1 1 [0%float])
                  (Some (<[0%nat :=
                     mean_half_squares [3; 5]%float [1; 1]%float 2]>
                     [0%float])))).
Proof.
  apply (proj1 mse_loss_mean (matrix 2 1 [3; 5]%float)
           (matrix 2 1 [1; 1]%float) (matrix 1 1 [0%float])
           [3; 5]%float [1; 1]%float [0%float] 2%N);
    try reflexivity; try (repeat split; reflexivity); simpl; lia.
Defined.

(** C4.  On binary64, [mse_loss_backpropagate_predicted] writes at every
    index [i < batch], [batch] being [target->shape[0]] (below [2^53]),
    the quotient of [predicted[i] - target[i]] by [batch], and touches
    nothing else.  With [y_pred = [[1],[2],[3],[4]]] and
    [y_target = [[1],[1],[1],[1]]] the gradient of [y_pred] is
    [[0],[0.25],[0.5],[0.75]], whatever the upstream gradient and the
    scratch tensor held. *)
Theorem mse_backward_predicted_gradient :
  (forall (ctx : backpropagation_context float)
          (grad_wrt_out grad_wrt_operand predicted target : tensor float)
          (pb tb gb : list float),
      operand ctx Mse.MSE_PREDICTED = Some predicted ->
      operand ctx Mse.MSE_TARGET = Some target ->
      data predicted = Some pb -> data target = Some tb ->
      data grad_wrt_operand = Some gb ->
      (dim target 0 < 2 ^ 53)%N ->
      (N.to_nat (dim target 0) <= length pb)%nat ->
      (N.to_nat (dim target 0) <= length tb)%nat ->
      (N.to_nat (dim target 0) <= length gb)%nat ->
      exists gb',
        Mse.mse_loss_backpropagate_predicted ctx grad_wrt_out grad_wrt_operand
        = Some (set_data grad_wrt_operand (Some gb'))
        /\ length gb' = length gb
        /\ (forall i pi ti, (i < N.to_nat (dim target 0))%nat ->
              pb !! i = Some pi -> tb !! i = Some ti ->
              gb' !! i = Some ((pi - ti) / of_size (dim target 0))%float)
        /\ (forall i, (N.to_nat (dim target 0) <= i)%nat ->
              gb' !! i = gb !! i))
  /\ (forall (a : tensor_allocator float) (grad_wrt_out : tensor float)
             (g0 g1 g2 g3 : float),
        Mse.mse_loss_backpropagate_predicted
          {| operands := [Some (matrix 4 1 [1; 2; 3; 4]%float);
                          Some (matrix 4 1 [1; 1; 1; 1]%float)];
             owned_allocator := a |}
          grad_wrt_out (matrix 4 1 [g0; g1; g2; g3])
        = Some (matrix 4 1 [0; 0.25; 0.5; 0.75]%float)).
Proof.
  split.
  - intros ctx grad_wrt_out grad_wrt_operand predicted target pb tb gb
      Hp Ht Hpb Htb Hgb Hbatch Hnp Hnt Hng.
    assert (Hfit : (dim target 0 < 2 ^ SIZE_WIDTH)%N).
    { eapply N.lt_trans; [exact Hbatch | reflexivity]. }
    exact (mse_backward_predicted_pointwise ctx grad_wrt_out grad_wrt_operand
             predicted target pb tb gb Hp Ht Hpb Htb Hgb
             (binary64_size_exact _ Hbatch) Hfit Hnp Hnt Hng).
  - intros a grad_wrt_out g0 g1 g2 g3. vm_compute. reflexivity.
Qed.

Lemma mse_backward_predicted_gradient_witness :
  exists gb',
    Mse.mse_loss_backpropagate_predicted
      {| operands := [Some (matrix 2 1 [3; 5]%float);
                      Some (matrix 2 1 [1; 1]%float)];
         owned_allocator := {| free_tensors := 0; stale := 0%float |} |}
      (matrix 1 1 [1%float]) (matrix 2 1 [0; 0]%float)
    = Some (set_data (matrix 2 1 [0; 0]%float) (Some gb'))
    /\ length gb' = 2%nat
    /\ (forall i pi ti, (i < 2)%nat ->
          [3; 5]%float !! i = Some pi -> [1; 1]%float !! i = Some ti ->
          gb' !! i = Some ((pi - ti) / of_size 2)%float)
    /\ (forall i, (2 <= i)%nat -> gb' !! i = [0; 0]%float !! i).
Proof.
  apply (proj1 mse_backward_predicted_gradient
           {| operands := [Some (matrix 2 1 [3; 5]%float);
                           Some (matrix 2 1 [1; 1]%float)];
              owned_allocator := {| free_tensors := 0; stale := 0%float |} |}
           (matrix 1 1 [1%float]) (matrix 2 1 [0; 0]%float)
           (matrix 2 1 [3; 5]%float) (matrix 2 1 [1; 1]%float)
           [3; 5]%float [1; 1]%float [0; 0]%float);
    try reflexivity; simpl; lia.
Defined.

(** C5.  On binary64, for operands and a gradient tensor of shape
    [(batch, 1)] ([batch] below [2^53]) and any upstream gradient: if [gp]
    is what [mse_loss_backpropagate_predicted] writes, then
    [mse_loss_backpropagate_target] writes, on the same inputs, the
    negation of [gp], element by element. *)
Theorem mse_backward_target_is_negation
    (ctx : backpropagation_context float)
    (grad_wrt_out grad_wrt_operand predicted target : tensor float)
    (pb tb gb : list float) (batch : N) :
  operand ctx Mse.MSE_PREDICTED = Some predicted ->
  operand ctx Mse.MSE_TARGET = Some target ->
  data predicted = Some pb -> data target = Some tb ->
  data grad_wrt_operand = Some gb ->
  has_shape predicted batch 1 -> has_shape target batch 1 ->
  has_shape grad_wrt_operand batch 1 ->
  wf2d predicted -> wf2d target -> wf2d grad_wrt_operand ->
  (batch < 2 ^ 53)%N ->
  exists gp,
    Mse.mse_loss_backpropagate_predicted ctx grad_wrt_out grad_wrt_operand
    = Some (set_data grad_wrt_operand (Some gp))
    /\ Mse.mse_loss_backpropagate_target ctx grad_wrt_out grad_wrt_operand
       = Some (set_data grad_wrt_operand (Some (PrimFloat.opp <$> gp))).
Proof.
  intros Hp Ht Hpb Htb Hgb Hsp Hst Hsg Hwp Hwt Hwg Hbatch.
  destruct (wf2d_column predicted pb batch Hpb Hsp Hwp) as (_ & Hpl & Hfit).
  destruct (wf2d_column target tb batch Htb Hst Hwt) as (_ & Htl & _).
  destruct (wf2d_column grad_wrt_operand gb batch Hgb Hsg Hwg) as (_ & Hgl & _).
  destruct (has_shape_dim _ _ _ Hst) as [Hdt _].
  destruct (has_shape_dim _ _ _ Hsg) as [Hdg _].
  destruct (mse_backward_target_negates ctx grad_wrt_out grad_wrt_operand
              predicted target pb tb gb Hp Ht Hpb Htb Hgb) as
    (gp & gt & Hrunp & Hrunt & Hlenp & Hlen & Hin & Hout).
  - now rewrite Hdg, Hdt.
  - rewrite Hdt. now apply binary64_size_exact.
  - now rewrite Hdt.
  - rewrite Hdt. lia.
  - rewrite Hdt. lia.
  - rewrite Hdt. lia.
  - exists gp. split; [exact Hrunp|]. rewrite Hrunt. do 3 f_equal.
    apply list_eq. intros i. rewrite list_lookup_fmap.
    destruct (gp !! i) as [v|] eqn:Hv; simpl.
    + assert (Hi : (i < N.to_nat (dim target 0))%nat).
      { apply lookup_lt_Some in Hv. rewrite Hdt. lia. }
      rewrite (Hin i v Hi Hv). f_equal. apply binary64_mul_neg1.
    + apply lookup_ge_None. rewrite Hlen. now apply lookup_ge_None.
Qed.

Lemma mse_backward_target_is_negation_witness :
  exists gp,
    Mse.mse_loss_backpropagate_predicted
      {| operands := [Some (matrix 2 1 [3; 5]%float);
                      Some (matrix 2 1 [1; 1]%float)];
         owned_allocator := {| free_tensors := 0; stale := 0%float |} |}
      (matrix 1 1 [1%float]) (matrix 2 1 [0; 0]%float)
    = Some (set_data (matrix 2 1 [0; 0]%float) (Some gp))
    /\ Mse.mse_loss_backpropagate_target
         {| operands := [Some (matrix 2 1 [3; 5]%float);
                         Some (matrix 2 1 [1; 1]%float)];
            owned_allocator := {| free_tensors := 0; stale := 0%float |} |}
         (matrix 1 1 [1%float]) (matrix 2 1 [0; 0]%float)
       = Some (set_data (matrix 2 1 [0; 0]%float)
                 (Some (PrimFloat.opp <$> gp))).
Proof.
  apply (mse_backward_target_is_negation
           {| operands := [Some (matrix 2 1 [3; 5]%float);
                           Some (matrix 2 1 [1; 1]%float)];
              owned_allocator := {| free_tensors := 0; stale := 0%float |} |}
           (matrix 1 1 [1%float]) (matrix 2 1 [0; 0]%float)
           (matrix 2 1 [3; 5]%float) (matrix 2 1 [1; 1]%float)
           [3; 5]%float [1; 1]%float [0; 0]%float 2%N);
    try reflexivity; repeat split; reflexivity.
Defined.

(** C10.  Neither MSE backward kernel reads the upstream gradient: two runs
    that differ only in [grad_wrt_out] end alike, undefined runs included.
    So the kernels give the chain-rule gradient for the seed 1 of a root,
    and not for another upstream gradient: on binary64, for
    [y_pred = [[1],[2],[3],[4]]] and [y_target = [[1],[1],[1],[1]]], the
    kernel writes [[0],[0.25],[0.5],[0.75]] under the upstream gradients
    [[1]] and [[2]] alike, which is the chain rule's answer for 1 and not
    for 2. *)
Theorem mse_backward_ignores_upstream :
  (forall (D : Type) (SD : Scalar D) (ctx : backpropagation_context D)
          (grad_wrt_out1 grad_wrt_out2 grad_wrt_operand : tensor D),
      Mse.mse_loss_backpropagate_predicted ctx grad_wrt_out1 grad_wrt_operand
      = Mse.mse_loss_backpropagate_predicted ctx grad_wrt_out2 grad_wrt_operand
      /\ Mse.mse_loss_backpropagate_target ctx grad_wrt_out1 grad_wrt_operand
         = Mse.mse_loss_backpropagate_target ctx grad_wrt_out2 grad_wrt_operand)
  /\ (let ctx :=
        {| operands := [Some (matrix 4 1 [1; 2; 3; 4]%float);
                        Some (matrix 4 1 [1; 1; 1; 1]%float)];
           owned_allocator := {| free_tensors := 0; stale := 0%float |} |} in
      let run seed :=
        Mse.mse_loss_backpropagate_predicted ctx (matrix 1 1 [seed])
          (matrix 4 1 [0; 0; 0; 0]%float) in
      let rule seed :=
        Some (matrix 4 1
                (mse_chain_rule seed [1; 2; 3; 4]%float [1; 1; 1; 1]%float 4)) in
      run 1%float = rule 1%float
      /\ run 2%float = run 1%float
      /\ run 2%float <> rule 2%float).
Proof.
  split.
  - intros D SD ctx g1 g2 g. split; reflexivity.
  - split; [vm_compute; reflexivity|]. split; [reflexivity|].
    intros H.
    apply (f_equal (fun r : option (tensor float) =>
             match r ≫= data with
             | Some [_; v; _; _] => PrimFloat.eqb v 0.5
             | _ => false
             end)) in H.
    vm_compute in H. discriminate H.
Qed.

(** ** Linear layer *)

(** C1.  On binary64, with the operands [x = [[1,2]]],
    [W = [[1,0,1],[0,1,1]]], [b = [[0],[0],[0]]] and the upstream gradient
    [[1,1,1]]: [linear_backpropagate_input] leaves [[2,2]] and
    [linear_backpropagate_weights] leaves [[1,1,1],[2,2,2]], whatever the
    scratch tensors held and for every allocator with a tensor to give (it
    gets the tensor back); [linear_backpropagate_bias], from an accumulator
    of zeros, leaves [[1],[1],[1]] in both builds. *)
Theorem linear_backward_example (n : nat) (s g0 g1 h0 h1 h2 h3 h4 h5 : float)
    (avx : bool) :
  let a := {| free_tensors := S n; stale := s |} in
  let ctx :=
    {| operands := [Some (matrix 1 2 [1; 2]%float);
                    Some (matrix 2 3 [1; 0; 1; 0; 1; 1]%float);
                    Some (matrix 3 1 [0; 0; 0]%float)];
       owned_allocator := a |} in
  let grad_out := matrix 1 3 [1; 1; 1]%float in
  Linear.linear_backpropagate_input ctx grad_out (matrix 1 2 [g0; g1])
  = Some (matrix 1 2 [2; 2]%float, a)
  /\ Linear.linear_backpropagate_weights ctx grad_out
       (matrix 2 3 [h0; h1; h2; h3; h4; h5])
     = Some (matrix 2 3 [1; 1; 1; 2; 2; 2]%float, a)
  /\ Linear.linear_backpropagate_bias avx ctx grad_out
       (matrix 3 1 [0; 0; 0]%float)
     = Some (matrix 3 1 [1; 1; 1]%float).
Proof.
  split; [|split].
  - vm_compute. reflexivity.
  - vm_compute. reflexivity.
  - destruct avx; vm_compute; reflexivity.
Qed.

(** C7, at an input where the two variants part.  For the upstream gradient
    [[1],[2]] and the accumulator [[0]], the scalar kernel leaves [[3]].
    The tail loop of the AVX kernel adds [grad_wrt_out->data[j]] to
    [grad_wrt_operand->data[row_offset + j]], the two indices exchanged: in
    row 1 it stores past the end of the accumulator, and where the buffer
    has a second element to take that store it ends as [1, 1] and the
    scalar kernel's as [3, 0]. *)
Theorem linear_bias_avx_differs (ctx : backpropagation_context float) :
  let grad_out := matrix 2 1 [1; 2]%float in
  Linear.linear_backpropagate_bias_scalar ctx grad_out (matrix 1 1 [0%float])
  = Some (matrix 1 1 [3%float])
  /\ Linear.linear_backpropagate_bias_avx_256 ctx grad_out
       (matrix 1 1 [0%float])
     = None
  /\ Linear.linear_backpropagate_bias_scalar ctx grad_out
       (matrix 1 1 [0; 0]%float)
     = Some (matrix 1 1 [3; 0]%float)
  /\ Linear.linear_backpropagate_bias_avx_256 ctx grad_out
       (matrix 1 1 [0; 0]%float)
     = Some (matrix 1 1 [1; 1]%float).
Proof. repeat split; vm_compute; reflexivity. Qed.

(** ** Graph registration of the MSE loss *)

(** C6, as the code has it.  Once [mse_loss] has succeeded,
    [mse_loss_graph] returns [NO_ERROR] whatever the two registrations
    return.  With the store of the spec and a [y_pred] that has no node the
    first registration is refused with [MISSING_NODE], no link is recorded
    for it, and the caller is told [NO_ERROR]. *)
Theorem mse_loss_graph_status :
  (forall (D : Type) (SD : Scalar D) (G : Type)
          (add_link : tensor D -> N -> tensor D -> backward_fn -> G ->
                      cgrad_error * tensor D * G)
          (y_pred y_target z z1 : option (tensor D)) (g : G),
      Mse.mse_loss y_pred y_target z = Some (NO_ERROR, z1) ->
      exists z' g',
        Mse.mse_loss_graph add_link y_pred y_target z g
        = Some (NO_ERROR, z', g'))
  /\ (let y_pred := matrix 4 1 [1; 2; 3; 4]%float in
      let y_target := matrix 4 1 [1; 1; 1; 1]%float in
      let z := matrix 1 1 [0%float] in
      let g := {| Graph.nodes := ∅; Graph.snapshots := ∅;
                  Graph.free_nodes := 4; Graph.free_links := 4;
                  Graph.next_node := 1 |} in
      Graph.add_computational_graph_link y_pred Mse.MSE_PREDICTED
        (matrix 1 1 [1.75%float]) mse_loss_backpropagate_predicted_fn g
      = (MISSING_NODE, matrix 1 1 [1.75%float], g)
      /\ exists z' g',
           Mse.mse_loss_graph Graph.add_computational_graph_link
             (Some y_pred) (Some y_target) (Some z) g
           = Some (NO_ERROR, z', g')
           /\ Graph.link_count g' = 0%nat).
Proof.
  split.
  - intros D SD G add_link y_pred y_target z z1 g Hfwd.
    unfold Mse.mse_loss_graph. rewrite Hfwd. simpl.
    assert (Hx : exists p t z0,
               y_pred = Some p /\ y_target = Some t /\ z1 = Some z0).
    { unfold Mse.mse_loss in Hfwd.
      destruct y_pred as [p|], y_target as [t|], z as [z0|];
        try discriminate.
      destruct (data p), (data t), (data z0); try discriminate.
      destruct (negb _); [discriminate|].
      destruct (negb _); [discriminate|].
      bind_inv Hfwd. injection Hfwd as <-. now eexists p, t, _. }
    destruct Hx as (p & t & z0 & -> & -> & ->). simpl.
    destruct (add_link p Mse.MSE_PREDICTED z0 _ g) as [[e1 z2] g1].
    destruct (add_link t Mse.MSE_TARGET z2 _ g1) as [[e2 z3] g2].
    now exists (Some z3), g2.
  - split; [reflexivity|].
    eexists _, _. split; [vm_compute; reflexivity|]. reflexivity.
Qed.

(** ** Forward ReLU, scalar build *)

(** With [x] and [out] of the same shape and buffers that hold
    [out->data_size] elements, the scalar build of [relu_forward] returns
    [NO_ERROR] and writes [x[i] > 0 ? x[i] : 0] at every index below
    [out->data_size], and nothing else. *)
Theorem relu_forward_scalar_value (D : Type) (SD : Scalar D)
    (x out : tensor D) (xb ob : list D) :
  data x = Some xb -> data out = Some ob ->
  tensor_same_shape x out = true ->
  (N.to_nat (data_size out) <= length xb)%nat ->
  (N.to_nat (data_size out) <= length ob)%nat ->
  exists ob',
    Relu.relu_forward false (Some x) (Some out)
    = Some (NO_ERROR, Some (set_data out (Some ob')))
    /\ length ob' = length ob
    /\ (forall i xi, (i < N.to_nat (data_size out))%nat ->
          xb !! i = Some xi ->
          ob' !! i = Some (if dlt (of_int 0) xi then xi else of_int 0))
    /\ (forall i, (N.to_nat (data_size out) <= i)%nat -> ob' !! i = ob !! i).
Proof.
  intros Hx Hout Hshape Hnx Hno.
  pose (g := fun i : N => xi ← load_at (Some xb) i; Some (Relu.relu_scalar xi)).
  destruct (for_loop_store g
    (fun i p => xi ← load_at (Some xb) i; store_at p i (Relu.relu_scalar xi)))
    with (count := N.to_nat (data_size out)) (start := 0%N) (buf := ob)
    as (ob' & Hrun & Hlen & Hin & Hout').
  - intros i p. unfold g. bind_cases.
  - intros k Hk. unfold g, load_at, load. simpl.
    rewrite N.add_0_l, Nat2N.id.
    destruct (lookup_lt_is_Some_2 xb k ltac:(lia)) as [xi ->]. simpl. eauto.
  - simpl. lia.
  - exists ob'. split; [|split; [exact Hlen | split]].
    + unfold Relu.relu_forward. rewrite Hx, Hout, Hshape. simpl.
      unfold Relu.relu_forward_unchecked_scalar, for_size.
      rewrite Hx, Hout, Hrun. reflexivity.
    + intros i xi Hi Hxi. specialize (Hin i Hi). simpl in Hin.
      rewrite Hin. unfold g, load_at, load. simpl.
      rewrite N.add_0_l, Nat2N.id, Hxi. reflexivity.
    + intros i Hi. apply Hout'. simpl. lia.
Qed.

Lemma relu_forward_scalar_value_witness :
  exists ob',
    Relu.relu_forward false (Some (matrix 1 2 [-1; 2]%float))
      (Some (matrix 1 2 [7; 7]%float))
    = Some (NO_ERROR, Some (set_data (matrix 1 2 [7; 7]%float) (Some ob')))
    /\ length ob' = 2%nat
    /\ (forall i xi, (i < 2)%nat ->
          [-1; 2]%float !! i = Some xi ->
          ob' !! i = Some (if dlt (of_int 0) xi then xi else of_int 0))
    /\ (forall i, (2 <= i)%nat -> ob' !! i = [7; 7]%float !! i).
Proof.
  apply (relu_forward_scalar_value float binary64
           (matrix 1 2 [-1; 2]%float) (matrix 1 2 [7; 7]%float)
           [-1; 2]%float [7; 7]%float);
    try reflexivity; simpl; lia.
Defined.

(** ** Bias gradient, scalar kernel *)

Section BiasFacts.
Context {D : Type} {SD : Scalar D}.
Local Open Scope dbl_scope.
Local Arguments for_loop : simpl never.

(** The rows [first], ..., [first + count - 1] of the scalar bias kernel. *)
Lemma bias_scalar_rows (gob : list D) (rows cols : N) :
  (rows * cols < 2 ^ SIZE_WIDTH)%N ->
  (N.to_nat (rows * cols) <= length gob)%nat ->
  forall count first buf,
    (first + N.of_nat count = rows)%N ->
    (N.to_nat cols <= length buf)%nat ->
    exists buf',
      for_loop count first
        (fun i gd =>
           for_size cols
             (fun j gd =>
                a ← load_at gd j;
                b ← load_at (Some gob) (size_add (size_mul i cols) j);
                store_at gd j (a + b))
             gd)
        (Some buf)
      = Some (Some buf')
      /\ length buf' = length buf
      /\ (forall j a, (j < N.to_nat cols)%nat -> buf !! j = Some a ->
            buf' !! j
            = Some (column_sum a gob (N.to_nat cols) j (N.to_nat first) count))
      /\ (forall j, (N.to_nat cols <= j)%nat -> buf' !! j = buf !! j).
Proof.
  intros Hfit Hgob count.
  induction count as [|count IH]; intros first buf Hrows Hbuf.
  - exists buf. unfold for_loop. split; [done|]. split; [done|].
    split; [|done]. intros j a _ Ha. now rewrite Ha.
  - assert (Hidx : forall j, (j < cols)%N ->
              size_add (size_mul first cols) j = (first * cols + j)%N
              /\ (first * cols + j < rows * cols)%N).
    { intros j Hj. apply index2d_in_range; [lia | exact Hj | exact Hfit]. }
    destruct (for_loop_accumulate dadd
                (fun j => load_at (Some gob) (size_add (size_mul first cols) j))
                (fun j gd =>
                   a ← load_at gd j;
                   b ← load_at (Some gob) (size_add (size_mul first cols) j);
                   store_at gd j (a + b)))
      with (count := N.to_nat cols) (start := 0%N) (buf := buf)
      as (row & Hrow & Hlen & Hin & Hout).
    + done.
    + intros k Hk. rewrite N.add_0_l.
      destruct (Hidx (N.of_nat k) ltac:(lia)) as [-> Hlt].
      unfold load_at, load. simpl. apply lookup_lt_is_Some_2. lia.
    + simpl. lia.
    + destruct (IH (N.succ first) row ltac:(lia) ltac:(lia)) as
        (buf' & Hrun & Hlen' & Hin' & Hout').
      exists buf'. split; [|split; [congruence | split]].
      * rewrite for_loop_S. cbn beta.
        change (for_loop (N.to_nat cols) 0 ?b (Some buf))
          with (for_size cols b (Some buf)) in Hrow.
        rewrite Hrow. exact Hrun.
      * intros j a Hj Ha.
        destruct (Hidx (N.of_nat j) ltac:(lia)) as [Hi Hlt].
        destruct (lookup_lt_is_Some_2 gob (N.to_nat (first * cols + N.of_nat j))
                    ltac:(lia)) as [b Hb].
        specialize (Hin j a b ltac:(lia)). simpl in Hin.
        rewrite N.add_0_l, Hi in Hin. unfold load_at, load in Hin.
        simpl in Hin. specialize (Hin Ha Hb).
        rewrite (Hin' j _ Hj Hin). f_equal.
        unfold column_sum. simpl. rewrite N2Nat.inj_succ. f_equal. f_equal.
        replace (N.to_nat first * N.to_nat cols + j)%nat
          with (N.to_nat (first * cols + N.of_nat j)) by lia.
        now rewrite Hb.
      * intros j Hj. rewrite Hout' by exact Hj. apply Hout. simpl. lia.
Qed.

End BiasFacts.

(** In every arithmetic, for an upstream gradient of [rows] by [cols]
    elements and an accumulator with room for [cols], the scalar bias kernel
    adds to element [j] of the accumulator column [j] of the upstream
    gradient, row after row, and leaves the rest of the accumulator alone. *)
Theorem linear_bias_scalar_column_sums (D : Type) (SD : Scalar D)
    (ctx : backpropagation_context D)
    (grad_wrt_out grad_wrt_operand : tensor D) (gob gb : list D) :
  data grad_wrt_out = Some gob -> data grad_wrt_operand = Some gb ->
  (dim grad_wrt_out 0 * dim grad_wrt_out 1 < 2 ^ SIZE_WIDTH)%N ->
  (N.to_nat (dim grad_wrt_out 0 * dim grad_wrt_out 1) <= length gob)%nat ->
  (N.to_nat (dim grad_wrt_out 1) <= length gb)%nat ->
  exists gb',
    Linear.linear_backpropagate_bias_scalar ctx grad_wrt_out grad_wrt_operand
    = Some (set_data grad_wrt_operand (Some gb'))
    /\ length gb' = length gb
    /\ (forall j a, (j < N.to_nat (dim grad_wrt_out 1))%nat ->
          gb !! j = Some a ->
          gb' !! j
          = Some (column_sum a gob (N.to_nat (dim grad_wrt_out 1)) j 0
                    (N.to_nat (dim grad_wrt_out 0))))
    /\ (forall j, (N.to_nat (dim grad_wrt_out 1) <= j)%nat ->
          gb' !! j = gb !! j).
Proof.
  intros Hgo Hg Hfit Hgob Hgb.
  destruct (bias_scalar_rows gob (dim grad_wrt_out 0) (dim grad_wrt_out 1)
              Hfit Hgob (N.to_nat (dim grad_wrt_out 0)) 0%N gb
              ltac:(lia) Hgb) as (gb' & Hrun & Hlen & Hin & Hout).
  exists gb'. split; [|split; [exact Hlen | split; [exact Hin | exact Hout]]].
  unfold Linear.linear_backpropagate_bias_scalar, for_size at 1.
  rewrite Hgo, Hg, Hrun. reflexivity.
Qed.

Lemma linear_bias_scalar_column_sums_witness :
  exists gb',
    Linear.linear_backpropagate_bias_scalar
      {| operands := []; owned_allocator := {| free_tensors := 0;
                                               stale := 0%float |} |}
      (matrix 2 1 [1; 2]%float) (matrix 1 1 [0%float])
    = Some (set_data (matrix 1 1 [0%float]) (Some gb'))
    /\ length gb' = 1%nat
    /\ (forall j a, (j < 1)%nat -> [0%float] !! j = Some a ->
          gb' !! j = Some (column_sum a [1; 2]%float 1 j 0 2))
    /\ (forall j, (1 <= j)%nat -> gb' !! j = [0%float] !! j).
Proof.
  apply (linear_bias_scalar_column_sums float binary64
           {| operands := []; owned_allocator := {| free_tensors := 0;
                                                    stale := 0%float |} |}
           (matrix 2 1 [1; 2]%float) (matrix 1 1 [0%float])
           [1; 2]%float [0%float]);
    try reflexivity; simpl; lia.
Defined.

(** ** Bias gradient, AVX kernel *)

Section BiasAvxFacts.
Context {D : Type} {SD : Scalar D}.
Local Open Scope dbl_scope.
Local Arguments for_loop : simpl never.
Local Arguments while_loop : simpl never.

Lemma for_loop_app {St : Type} (body : N -> St -> option St) (a b : nat) :
  forall start s,
    for_loop (a + b) start body s
    = s' ← for_loop a start body s; for_loop b (start + N.of_nat a)%N body s'.
Proof.
  induction a as [|a IH]; intros start s.
  - simpl. now rewrite N.add_0_r.
  - change (S a + b)%nat with (S (a + b)). rewrite !for_loop_S.
    destruct (body start s) as [s1|]; [|reflexivity]. simpl.
    rewrite IH. do 2 f_equal. lia.
Qed.

Lemma for_loop_ext {St : Type} (body1 body2 : N -> St -> option St)
    (count : nat) :
  forall start s,
    (forall k s', (k < count)%nat ->
       body1 (start + N.of_nat k)%N s' = body2 (start + N.of_nat k)%N s') ->
    for_loop count start body1 s = for_loop count start body2 s.
Proof.
  induction count as [|count IH]; intros start s Hext; [reflexivity|].
  rewrite !for_loop_S.
  specialize (Hext 0%nat) as H0. rewrite N.add_0_r in H0.
  rewrite H0 by lia. destruct (body2 start s) as [s1|]; [|reflexivity]. simpl.
  apply IH. intros k s' Hk.
  replace (N.succ start + N.of_nat k)%N with (start + N.of_nat (S k))%N by lia.
  apply Hext. lia.
Qed.

Lemma mm256_loadu_pd_eval (buf : list D) (j : N) (a0 a1 a2 a3 : D) :
  buf !! N.to_nat j = Some a0 -> buf !! S (N.to_nat j) = Some a1 ->
  buf !! S (S (N.to_nat j)) = Some a2 ->
  buf !! S (S (S (N.to_nat j))) = Some a3 ->
  Relu.mm256_loadu_pd (Some buf) j = Some [a0; a1; a2; a3].
Proof.
  intros H0 H1 H2 H3. unfold Relu.mm256_loadu_pd, load_at, load. simpl.
  rewrite N.add_0_r, H0.
  replace (N.to_nat (j + 1)) with (S (N.to_nat j)) by lia.
  replace (N.to_nat (j + 2)) with (S (S (N.to_nat j))) by lia.
  replace (N.to_nat (j + 3)) with (S (S (S (N.to_nat j)))) by lia.
  now rewrite H1, H2, H3.
Qed.

Lemma mm256_storeu_pd_eval (buf : list D) (j : N) (s0 s1 s2 s3 : D) :
  (S (S (S (N.to_nat j))) < length buf)%nat ->
  Relu.mm256_storeu_pd (Some buf) j [s0; s1; s2; s3]
  = Some (Some (<[S (S (S (N.to_nat j))) := s3]>
                  (<[S (S (N.to_nat j)) := s2]>
                     (<[S (N.to_nat j) := s1]>
                        (<[N.to_nat j := s0]> buf))))).
Proof.
  intros Hlen. unfold Relu.mm256_storeu_pd, store_at. simpl.
  rewrite N.add_0_r.
  rewrite store_Some by lia. simpl.
  rewrite store_Some by (rewrite !length_insert; lia). simpl.
  rewrite store_Some by (rewrite !length_insert; lia). simpl.
  rewrite store_Some by (rewrite !length_insert; lia). simpl.
  replace (N.to_nat (j + 1)) with (S (N.to_nat j)) by lia.
  replace (N.to_nat (j + 2)) with (S (S (N.to_nat j))) by lia.
  replace (N.to_nat (j + 3)) with (S (S (S (N.to_nat j)))) by lia.
  reflexivity.
Qed.

(** One turn of the scalar kernel in row [i]. *)
Lemma bias_scalar_step_eval (gob buf : list D) (i cols j : N) (jn on : nat)
    (a b : D) :
  N.to_nat j = jn -> N.to_nat (size_add (size_mul i cols) j) = on ->
  buf !! jn = Some a -> gob !! on = Some b ->
  (a0 ← load_at (Some buf) j;
   b0 ← load_at (Some gob) (size_add (size_mul i cols) j);
   store_at (Some buf) j (a0 + b0))
  = Some (Some (<[jn := a + b]> buf)).
Proof.
  intros <- <- Ha Hb. unfold load_at, load, store_at. simpl.
  rewrite Ha. simpl. rewrite Hb. simpl.
  rewrite store_Some by (eapply lookup_lt_Some; eassumption). reflexivity.
Qed.

(** One turn of the vector loop does what four turns of the scalar loop
    do. *)
Lemma bias_vector_step_eq (grad_wrt_out : tensor D) (gob buf : list D)
    (rows cols i j : N) :
  data grad_wrt_out = Some gob ->
  (i < rows)%N -> (j + 3 < cols)%N -> (rows * cols < 2 ^ SIZE_WIDTH)%N ->
  (N.to_nat cols <= length buf)%nat ->
  (N.to_nat (rows * cols) <= length gob)%nat ->
  Linear.bias_avx_step grad_wrt_out i cols (j, Some buf)
  = gd' ← for_loop 4 j
            (fun j gd =>
               a ← load_at gd j;
               b ← load_at (Some gob) (size_add (size_mul i cols) j);
               store_at gd j (a + b))
            (Some buf);
    Some ((j + 4)%N, gd').
Proof.
  intros Hgo Hi Hj Hfit Hbuf Hgob.
  assert (Hidx : forall k, (k < 4)%N ->
            size_add (size_mul i cols) (j + k) = (i * cols + j + k)%N
            /\ (i * cols + j + k < rows * cols)%N).
  { intros k Hk.
    destruct (index2d_in_range rows cols i (j + k)) as [-> ?]; [lia..|].
    split; lia. }
  set (jn := N.to_nat j). set (on := N.to_nat (i * cols + j)).
  destruct (lookup_lt_is_Some_2 buf jn ltac:(lia)) as [a0 Ha0].
  destruct (lookup_lt_is_Some_2 buf (S jn) ltac:(lia)) as [a1 Ha1].
  destruct (lookup_lt_is_Some_2 buf (S (S jn)) ltac:(lia)) as [a2 Ha2].
  destruct (lookup_lt_is_Some_2 buf (S (S (S jn))) ltac:(lia)) as [a3 Ha3].
  pose proof (Hidx 0%N ltac:(lia)) as [Hi0 Hl0].
  pose proof (Hidx 1%N ltac:(lia)) as [Hi1 Hl1].
  pose proof (Hidx 2%N ltac:(lia)) as [Hi2 Hl2].
  pose proof (Hidx 3%N ltac:(lia)) as [Hi3 Hl3].
  rewrite N.add_0_r in Hi0.
  destruct (lookup_lt_is_Some_2 gob on ltac:(lia)) as [b0 Hb0].
  destruct (lookup_lt_is_Some_2 gob (S on) ltac:(lia)) as [b1 Hb1].
  destruct (lookup_lt_is_Some_2 gob (S (S on)) ltac:(lia)) as [b2 Hb2].
  destruct (lookup_lt_is_Some_2 gob (S (S (S on))) ltac:(lia)) as [b3 Hb3].
  (* the four scalar turns *)
  rewrite for_loop_S.
  rewrite (bias_scalar_step_eval gob buf i cols j jn on a0 b0)
    by (try assumption; try reflexivity; rewrite Hi0; lia).
  simpl. rewrite for_loop_S.
  rewrite (bias_scalar_step_eval gob _ i cols (N.succ j) (S jn) (S on) a1 b1);
    [|lia|replace (N.succ j) with (j + 1)%N by lia; rewrite Hi1; lia
     |rewrite list_lookup_insert_ne by lia; exact Ha1|exact Hb1].
  simpl. rewrite for_loop_S.
  rewrite (bias_scalar_step_eval gob _ i cols (N.succ (N.succ j))
             (S (S jn)) (S (S on)) a2 b2);
    [|lia|replace (N.succ (N.succ j)) with (j + 2)%N by lia; rewrite Hi2; lia
     |rewrite !list_lookup_insert_ne by lia; exact Ha2|exact Hb2].
  simpl. rewrite for_loop_S.
  rewrite (bias_scalar_step_eval gob _ i cols (N.succ (N.succ (N.succ j)))
             (S (S (S jn))) (S (S (S on))) a3 b3);
    [|lia
     |replace (N.succ (N.succ (N.succ j))) with (j + 3)%N by lia;
      rewrite Hi3; lia
     |rewrite !list_lookup_insert_ne by lia; exact Ha3|exact Hb3].
  simpl.
  (* the vector turn *)
  unfold Linear.bias_avx_step. rewrite Hgo.
  rewrite (mm256_loadu_pd_eval buf j a0 a1 a2 a3)
    by first [exact Ha0 | exact Ha1 | exact Ha2 | exact Ha3].
  simpl.
  rewrite (mm256_loadu_pd_eval gob (size_add (size_mul i cols) j) b0 b1 b2 b3).
  all: try (rewrite Hi0;
            first [ rewrite <- Hb0; f_equal; lia | rewrite <- Hb1; f_equal; lia
                  | rewrite <- Hb2; f_equal; lia | rewrite <- Hb3; f_equal; lia ]).
  simpl. unfold Linear.mm256_add_pd. simpl.
  rewrite mm256_storeu_pd_eval by (fold jn; lia). simpl.
  unfold size_add, Linear.AVX_DOUBLE_NUMBER.
  rewrite size_wrap_small; [reflexivity|].
  assert (cols <= rows * cols)%N by nia. lia.
Qed.

Lemma while_loop_S {St : Type} (fuel : nat) (cond : St -> bool)
    (body : St -> option St) (s : St) :
  while_loop (S fuel) cond body s
  = if cond s then s' ← body s; while_loop fuel cond body s' else Some s.
Proof. reflexivity. Qed.

Lemma for_loop_ext_inv {St : Type} (P : St -> Prop)
    (body1 body2 : N -> St -> option St) (count : nat) :
  forall start s,
    (forall k s', (k < count)%nat -> P s' ->
       body1 (start + N.of_nat k)%N s' = body2 (start + N.of_nat k)%N s') ->
    (forall k s1 s2, (k < count)%nat -> P s1 ->
       body2 (start + N.of_nat k)%N s1 = Some s2 -> P s2) ->
    P s ->
    for_loop count start body1 s = for_loop count start body2 s.
Proof.
  induction count as [|count IH]; intros start s Hext Hinv Hs; [reflexivity|].
  rewrite !for_loop_S.
  specialize (Hext 0%nat) as H0. specialize (Hinv 0%nat) as I0.
  rewrite N.add_0_r in H0, I0. rewrite H0 by (lia || exact Hs).
  destruct (body2 start s) as [s1|] eqn:Hb; [|reflexivity]. simpl.
  apply IH.
  - intros k s' Hk. replace (N.succ start + N.of_nat k)%N
      with (start + N.of_nat (S k))%N by lia.
    apply Hext. lia.
  - intros k s2 s3 Hk. replace (N.succ start + N.of_nat k)%N
      with (start + N.of_nat (S k))%N by lia.
    apply Hinv. lia.
  - apply (I0 s s1); [lia | exact Hs | exact Hb].
Qed.

Lemma size_add4_sub1 (j : N) :
  (j + 4 < 2 ^ SIZE_WIDTH)%N ->
  size_sub (size_add j Linear.AVX_DOUBLE_NUMBER) 1 = (j + 3)%N.
Proof.
  intros Hj. unfold size_sub, size_add, Linear.AVX_DOUBLE_NUMBER.
  rewrite (size_wrap_small (j + 4)) by exact Hj.
  unfold size_wrap.
  replace (j + 4 + 2 ^ SIZE_WIDTH - 1)%N
    with (j + 3 + 1 * 2 ^ SIZE_WIDTH)%N by lia.
  rewrite N.Div0.mod_add. apply N.mod_small. lia.
Qed.

(** The scalar turns of row [i] run without undefined behaviour and keep
    the length of the accumulator. *)
Lemma bias_scalar_turns (gob buf : list D) (rows cols i : N)
    (count : nat) (j : N) :
  (i < rows)%N -> (rows * cols < 2 ^ SIZE_WIDTH)%N ->
  (N.to_nat (rows * cols) <= length gob)%nat ->
  (j + N.of_nat count <= cols)%N -> (N.to_nat cols <= length buf)%nat ->
  exists buf',
    for_loop count j
      (fun j gd =>
         a ← load_at gd j;
         b ← load_at (Some gob) (size_add (size_mul i cols) j);
         store_at gd j (a + b))
      (Some buf)
    = Some (Some buf')
    /\ length buf' = length buf.
Proof.
  intros Hi Hfit Hgob Hj Hbuf.
  destruct (for_loop_accumulate dadd
              (fun j => load_at (Some gob) (size_add (size_mul i cols) j))
              (fun j gd =>
                 a ← load_at gd j;
                 b ← load_at (Some gob) (size_add (size_mul i cols) j);
                 store_at gd j (a + b)))
    with (count := count) (start := j) (buf := buf)
    as (buf' & Hrun & Hlen & _).
  - done.
  - intros k Hk.
    destruct (index2d_in_range rows cols i (j + N.of_nat k)) as [-> Hlt];
      [lia..|].
    unfold load_at, load. simpl. apply lookup_lt_is_Some_2. lia.
  - lia.
  - now exists buf'.
Qed.

(** The vector loop of row [i] does the scalar turns of the columns it
    covers and stops at the last multiple of four. *)
Lemma bias_vector_loop (grad_wrt_out : tensor D) (gob : list D)
    (rows cols i : N) :
  data grad_wrt_out = Some gob ->
  (i < rows)%N -> (rows * cols < 2 ^ SIZE_WIDTH)%N ->
  (cols + 4 < 2 ^ SIZE_WIDTH)%N ->
  (N.to_nat (rows * cols) <= length gob)%nat ->
  forall q j buf fuel,
    (j + 4 * N.of_nat q <= cols)%N -> (cols < j + 4 * N.of_nat q + 4)%N ->
    (q < fuel)%nat -> (N.to_nat cols <= length buf)%nat ->
    while_loop fuel
      (fun '(j, _) =>
         (size_sub (size_add j Linear.AVX_DOUBLE_NUMBER) 1 <? cols)%N)
      (Linear.bias_avx_step grad_wrt_out i cols) (j, Some buf)
    = gd' ← for_loop (4 * q) j
              (fun j gd =>
                 a ← load_at gd j;
                 b ← load_at (Some gob) (size_add (size_mul i cols) j);
                 store_at gd j (a + b))
              (Some buf);
      Some ((j + 4 * N.of_nat q)%N, gd').
Proof.
  intros Hgo Hi Hfit Hcols Hgob q.
  induction q as [|q IH]; intros j buf fuel Hlo Hhi Hfuel Hbuf;
    (destruct fuel as [|fuel]; [lia|]); rewrite while_loop_S;
    rewrite size_add4_sub1 by lia.
  - destruct (N.ltb_spec (j + 3) cols); [lia|]. simpl.
    do 2 f_equal. lia.
  - destruct (N.ltb_spec (j + 3) cols); [|lia].
    replace (4 * S q)%nat with (4 + 4 * q)%nat by lia.
    rewrite for_loop_app.
    rewrite (bias_vector_step_eq grad_wrt_out gob buf rows cols i j)
      by (try assumption; lia).
    destruct (bias_scalar_turns gob buf rows cols i 4 j Hi Hfit Hgob
                ltac:(lia) Hbuf) as (buf4 & Hrun4 & Hlen4).
    rewrite Hrun4. cbn [mbind option_bind].
    rewrite (IH (j + 4)%N buf4 fuel) by lia.
    change (N.of_nat 4) with 4%N.
    destruct (for_loop (4 * q) (j + 4) _ (Some buf4)) as [gd'|];
      [|reflexivity].
    cbn [mbind option_bind]. do 2 f_equal. lia.
Qed.

(** Row [i] of the AVX kernel against row [i] of the scalar kernel: alike in
    row 0 and wherever the vector loop covers the whole row. *)
Lemma bias_avx_row_eq (grad_wrt_out : tensor D) (gob buf : list D)
    (rows cols i : N) :
  data grad_wrt_out = Some gob ->
  (i < rows)%N -> (rows * cols < 2 ^ SIZE_WIDTH)%N ->
  (cols + 4 < 2 ^ SIZE_WIDTH)%N ->
  (N.to_nat (rows * cols) <= length gob)%nat ->
  (N.to_nat cols <= length buf)%nat ->
  i = 0%N \/ (cols mod 4 = 0)%N ->
  ('(j, gd) ← while_loop (S (buf_len (Some buf)))
     (fun '(j, _) =>
        (size_sub (size_add j Linear.AVX_DOUBLE_NUMBER) 1 <? cols)%N)
     (Linear.bias_avx_step grad_wrt_out i cols) (0%N, Some buf);
   for_loop (N.to_nat (cols - j)) j
     (fun j gd =>
        a ← load_at gd (size_add (size_mul i cols) j);
        b ← load_at (data grad_wrt_out) j;
        store_at gd (size_add (size_mul i cols) j) (a + b))
     gd)
  = for_size cols
      (fun j gd =>
         a ← load_at gd j;
         b ← load_at (data grad_wrt_out) (size_add (size_mul i cols) j);
         store_at gd j (a + b))
      (Some buf).
Proof.
  intros Hgo Hi Hfit Hcols Hgob Hbuf Hcase. rewrite Hgo.
  pose proof (N.div_mod cols 4 ltac:(lia)) as Hdiv.
  pose proof (N.mod_lt cols 4 ltac:(lia)) as Hmod.
  set (q := N.to_nat (cols / 4)) in *.
  set (r := N.to_nat (cols mod 4)) in *.
  rewrite (bias_vector_loop grad_wrt_out gob rows cols i Hgo Hi Hfit Hcols
             Hgob q 0%N buf) by (unfold q; simpl; lia).
  unfold for_size.
  replace (N.to_nat cols) with (4 * q + r)%nat by (unfold q, r; lia).
  rewrite for_loop_app.
  destruct (for_loop (4 * q) 0 _ (Some buf)) as [gd'|]; [|reflexivity].
  cbn [mbind option_bind].
  replace (N.to_nat (cols - (0 + 4 * N.of_nat q))) with r
    by (unfold q, r; lia).
  replace (0 + N.of_nat (4 * q))%N with (0 + 4 * N.of_nat q)%N by lia.
  destruct Hcase as [-> | Hzero].
  - apply for_loop_ext. intros k s' Hk.
    assert (Hoff : size_add (size_mul 0 cols) (0 + 4 * N.of_nat q + N.of_nat k)
                   = (0 + 4 * N.of_nat q + N.of_nat k)%N).
    { unfold size_add, size_mul. rewrite N.mul_0_l.
      rewrite (size_wrap_small 0) by reflexivity.
      apply size_wrap_small. unfold q, r in *. lia. }
    rewrite Hoff. reflexivity.
  - replace r with 0%nat by (unfold r; lia). reflexivity.
Qed.

End BiasAvxFacts.

(** In every arithmetic, for an upstream gradient of [rows] by [cols]
    elements and an accumulator with room for [cols]: the AVX bias kernel
    and the scalar one end alike when the vector loop covers every row
    ([cols] a multiple of four) and when there is no row after the first. *)
Theorem linear_bias_avx_agrees (D : Type) (SD : Scalar D)
    (ctx : backpropagation_context D)
    (grad_wrt_out grad_wrt_operand : tensor D) (gob gb : list D) :
  data grad_wrt_out = Some gob -> data grad_wrt_operand = Some gb ->
  (dim grad_wrt_out 0 * dim grad_wrt_out 1 < 2 ^ SIZE_WIDTH)%N ->
  (dim grad_wrt_out 1 + 4 < 2 ^ SIZE_WIDTH)%N ->
  (N.to_nat (dim grad_wrt_out 0 * dim grad_wrt_out 1) <= length gob)%nat ->
  (N.to_nat (dim grad_wrt_out 1) <= length gb)%nat ->
  (dim grad_wrt_out 0 <= 1)%N \/ (dim grad_wrt_out 1 mod 4 = 0)%N ->
  Linear.linear_backpropagate_bias_avx_256 ctx grad_wrt_out grad_wrt_operand
  = Linear.linear_backpropagate_bias_scalar ctx grad_wrt_out grad_wrt_operand.
Proof.
  intros Hgo Hg Hfit Hcols Hgob Hgb Hcase.
  unfold Linear.linear_backpropagate_bias_avx_256,
    Linear.linear_backpropagate_bias_scalar.
  set (rows := dim grad_wrt_out 0) in *. set (cols := dim grad_wrt_out 1) in *.
  rewrite Hg. cbv zeta. f_equal. unfold for_size at 1 3.
  apply (for_loop_ext_inv
           (fun gd => exists buf : list D,
              gd = Some buf /\ (N.to_nat cols <= length buf)%nat)).
  - intros k gd Hk (buf & -> & Hbuf). rewrite N.add_0_l.
    apply (bias_avx_row_eq grad_wrt_out gob buf rows cols (N.of_nat k));
      try assumption; [lia|].
    destruct Hcase as [Hrows | Hmod]; [left; lia | right; exact Hmod].
  - intros k gd gd' Hk (buf & -> & Hbuf) Hrun. rewrite N.add_0_l in Hrun.
    rewrite Hgo in Hrun.
    destruct (bias_scalar_turns gob buf rows cols (N.of_nat k)
                (N.to_nat cols) 0%N ltac:(lia) Hfit Hgob ltac:(lia) Hbuf)
      as (buf' & Hrun' & Hlen).
    unfold for_size in Hrun. rewrite Hrun' in Hrun. injection Hrun as <-.
    exists buf'. split; [reflexivity | lia].
  - now exists gb.
Qed.

Lemma linear_bias_avx_agrees_witness :
  Linear.linear_backpropagate_bias_avx_256
    {| operands := []; owned_allocator := {| free_tensors := 0;
                                             stale := 0%float |} |}
    (matrix 2 4 [1; 2; 3; 4; 5; 6; 7; 8]%float)
    (matrix 4 1 [0; 0; 0; 0]%float)
  = Linear.linear_backpropagate_bias_scalar
      {| operands := []; owned_allocator := {| free_tensors := 0;
                                               stale := 0%float |} |}
      (matrix 2 4 [1; 2; 3; 4; 5; 6; 7; 8]%float)
      (matrix 4 1 [0; 0; 0; 0]%float).
Proof.
  apply (linear_bias_avx_agrees float binary64 _ _ _
           [1; 2; 3; 4; 5; 6; 7; 8]%float [0; 0; 0; 0]%float);
    try reflexivity; try (simpl; lia).
  right. reflexivity.
Defined.

(** ** Accessors: what is written is what is read *)

Lemma index2d_injective (rows cols row col row' col' : N) :
  (row < rows)%N -> (col < cols)%N -> (row' < rows)%N -> (col' < cols)%N ->
  (row * cols + col = row' * cols + col')%N -> row = row' /\ col = col'.
Proof.
  intros Hr Hc Hr' Hc' Heq.
  assert (row = row') by nia. subst row'. split; [reflexivity | lia].
Qed.

(** After a successful [tensor2d_set] the tensor has the shape, the sizes
    and the buffer length it had, [tensor2d_get] at the same place returns
    the value that was set, and [tensor2d_get] at every other place in range
    returns what it returned before. *)
Theorem tensor2d_get_after_set {D : Type} (t0 : tensor D) (buf : list D)
    (row col : N) (value old : D) :
  data t0 = Some buf -> shape_size t0 = 2%N -> wf2d t0 ->
  (row < dim t0 0)%N -> (col < dim t0 1)%N ->
  exists t1,
    tensor2d_set (Some t0) row col value = Some (NO_ERROR, Some t1)
    /\ shape t1 = shape t0 /\ shape_size t1 = shape_size t0
    /\ data_size t1 = data_size t0 /\ wf2d t1
    /\ tensor2d_get (Some t1) row col old = Some (NO_ERROR, value)
    /\ (forall row' col',
          (row' < dim t0 0)%N -> (col' < dim t0 1)%N ->
          (row', col') <> (row, col) ->
          tensor2d_get (Some t1) row' col' old
          = tensor2d_get (Some t0) row' col' old).
Proof.
  intros Hdata Hrank Hwf Hrow Hcol.
  destruct (tensor2d_access_ok t0 buf row col value old Hdata Hrank Hrow Hcol
              Hwf) as (v & Hv & Hset & _).
  set (k := N.to_nat (row * dim t0 1 + col)) in *.
  set (t1 := set_data t0 (Some (<[k := value]> buf))).
  assert (Hwf1 : wf2d t1).
  { destruct Hwf as (Hsize & Hlen & Hfit). rewrite Hdata in Hlen.
    repeat split; [exact Hsize | | exact Hfit].
    simpl. rewrite length_insert. exact Hlen. }
  exists t1. split; [exact Hset|]. do 3 (split; [reflexivity|]).
  split; [exact Hwf1|]. split.
  - destruct (tensor2d_access_ok t1 (<[k := value]> buf) row col value old
                eq_refl Hrank Hrow Hcol Hwf1) as (v1 & Hv1 & _ & Hget).
    rewrite Hget. change (dim t1 1) with (dim t0 1) in Hv1. fold k in Hv1.
    rewrite list_lookup_insert_eq in Hv1 by (eapply lookup_lt_Some; eauto).
    congruence.
  - intros row' col' Hrow' Hcol' Hne.
    destruct (tensor2d_access_ok t1 (<[k := value]> buf) row' col' value old
                eq_refl Hrank Hrow' Hcol' Hwf1) as (v1 & Hv1 & _ & Hget1).
    destruct (tensor2d_access_ok t0 buf row' col' value old Hdata Hrank
                Hrow' Hcol' Hwf) as (v0 & Hv0 & _ & Hget0).
    rewrite Hget1, Hget0. change (dim t1 1) with (dim t0 1) in Hv1.
    rewrite list_lookup_insert_ne in Hv1; [congruence|].
    unfold k. intros Heq. apply Hne.
    destruct (index2d_injective (dim t0 0) (dim t0 1) row col row' col')
      as [-> ->]; [assumption.. | lia | reflexivity].
Qed.

Lemma tensor2d_get_after_set_witness :
  exists t1,
    tensor2d_set (Some (matrix 2 2 [1; 2; 3; 4]%float)) 1 0 9%float
    = Some (NO_ERROR, Some t1)
    /\ shape t1 = [2; 2]%N /\ shape_size t1 = 2%N /\ data_size t1 = 4%N
    /\ wf2d t1
    /\ tensor2d_get (Some t1) 1 0 0%float = Some (NO_ERROR, 9%float)
    /\ (forall row' col',
          (row' < 2)%N -> (col' < 2)%N -> (row', col') <> (1, 0)%N ->
          tensor2d_get (Some t1) row' col' 0%float
          = tensor2d_get (Some (matrix 2 2 [1; 2; 3; 4]%float)) row' col'
              0%float).
Proof.
  apply (tensor2d_get_after_set (matrix 2 2 [1; 2; 3; 4]%float)
           [1; 2; 3; 4]%float 1%N 0%N 9%float 0%float);
    try reflexivity; repeat split.
Defined.

(** [tensor2d_set_unchecked] does what [tensor2d_set] does when the place is
    in range.  It checks nothing: a column index past the end of a row lands
    in the next row, [(row, shape[1] + col)] being the place
    [(row + 1, col)]. *)
Theorem tensor2d_set_unchecked_places {D : Type} (t0 : tensor D)
    (row col : N) (value : D) :
  (shape_size t0 = 2%N -> wf2d t0 ->
   (row < dim t0 0)%N -> (col < dim t0 1)%N -> data t0 <> None ->
   exists t1,
     tensor2d_set_unchecked t0 row col value = Some t1
     /\ tensor2d_set (Some t0) row col value = Some (NO_ERROR, Some t1))
  /\ tensor2d_set_unchecked t0 row (dim t0 1 + col) value
     = tensor2d_set_unchecked t0 (row + 1) col value.
Proof.
  split.
  - intros Hrank Hwf Hrow Hcol Hdata.
    destruct (data t0) as [buf|] eqn:Hbuf; [|congruence].
    destruct (tensor2d_access_ok t0 buf row col value value Hbuf Hrank
                Hrow Hcol Hwf) as (v & Hv & Hset & _).
    eexists. split; [|exact Hset].
    destruct Hwf as (Hsize & Hlen & Hfit). rewrite Hbuf in Hlen.
    simpl in Hlen. rewrite Hsize in Hlen, Hfit.
    destruct (index2d_in_range _ _ _ _ Hrow Hcol Hfit) as [Hidx Hin].
    unfold tensor2d_set_unchecked, store_at. rewrite Hbuf, Hidx. simpl.
    rewrite store_Some by lia. reflexivity.
  - unfold tensor2d_set_unchecked. do 2 f_equal.
    unfold size_add, size_mul, size_wrap.
    rewrite !N.Div0.add_mod_idemp_l. f_equal. lia.
Qed.

Lemma tensor2d_set_unchecked_places_witness :
  (exists t1,
     tensor2d_set_unchecked (matrix 2 2 [1; 2; 3; 4]%float) 0 1 9%float
     = Some t1
     /\ tensor2d_set (Some (matrix 2 2 [1; 2; 3; 4]%float)) 0 1 9%float
        = Some (NO_ERROR, Some t1))
  /\ tensor2d_set_unchecked (matrix 2 2 [1; 2; 3; 4]%float) 0 (2 + 1) 9%float
     = tensor2d_set_unchecked (matrix 2 2 [1; 2; 3; 4]%float) (0 + 1) 1
         9%float.
Proof.
  pose proof (tensor2d_set_unchecked_places
                (matrix 2 2 [1; 2; 3; 4]%float) 0%N 1%N 9%float) as [H1 H2].
  split.
  - apply H1; try reflexivity; [repeat split | discriminate].
  - exact H2.
Defined.

(** ** MSE loss: what is refused *)

(** [mse_loss] refuses, in this order and each time leaving [z] as it was: a
    null tensor among the three ([TENSOR_NULL]), a null data buffer among
    the three ([TENSOR_DATA_NULL]), operands with different [data_size]
    ([TENSOR_DATA_SIZE_MISMATCH]) and operands of different shape
    ([TENSOR_SHAPE_MISMATCH]).  [mse_loss_graph] hands such a status to its
    caller and leaves the graph state untouched, for every implementation
    of the registration. *)
Theorem mse_loss_refusals (D : Type) (SD : Scalar D)
    (y_pred y_target z : option (tensor D)) :
  (y_pred = None \/ y_target = None \/ z = None ->
   Mse.mse_loss y_pred y_target z = Some (TENSOR_NULL, z))
  /\ (forall p t z0,
        y_pred = Some p -> y_target = Some t -> z = Some z0 ->
        data p = None \/ data t = None \/ data z0 = None ->
        Mse.mse_loss y_pred y_target z = Some (TENSOR_DATA_NULL, z))
  /\ (forall p t z0,
        y_pred = Some p -> y_target = Some t -> z = Some z0 ->
        data p <> None -> data t <> None -> data z0 <> None ->
        data_size p <> data_size t ->
        Mse.mse_loss y_pred y_target z = Some (TENSOR_DATA_SIZE_MISMATCH, z))
  /\ (forall p t z0,
        y_pred = Some p -> y_target = Some t -> z = Some z0 ->
        data p <> None -> data t <> None -> data z0 <> None ->
        data_size p = data_size t -> tensor_same_shape p t = false ->
        Mse.mse_loss y_pred y_target z = Some (TENSOR_SHAPE_MISMATCH, z))
  /\ (forall (G : Type)
        (add_link : tensor D -> N -> tensor D -> backward_fn -> G ->
                    cgrad_error * tensor D * G)
        (g : G) e z1,
        Mse.mse_loss y_pred y_target z = Some (e, z1) -> e <> NO_ERROR ->
        Mse.mse_loss_graph add_link y_pred y_target z g = Some (e, z1, g)).
Proof.
  split; [|split; [|split; [|split]]].
  - intros [-> | [-> | ->]]; [reflexivity | now destruct y_pred |].
    now destruct y_pred, y_target.
  - intros p t z0 -> -> -> Hnull. unfold Mse.mse_loss.
    destruct Hnull as [-> | [Ht | Hz]]; [reflexivity | |].
    + rewrite Ht. now destruct (data p).
    + rewrite Hz. now destruct (data p), (data t).
  - intros p t z0 -> -> -> Hp Ht Hz Hsize. unfold Mse.mse_loss.
    destruct (data p); [|congruence]. destruct (data t); [|congruence].
    destruct (data z0); [|congruence].
    destruct (N.eqb_spec (data_size p) (data_size t)); [congruence|].
    reflexivity.
  - intros p t z0 -> -> -> Hp Ht Hz Hsize Hshape. unfold Mse.mse_loss.
    destruct (data p); [|congruence]. destruct (data t); [|congruence].
    destruct (data z0); [|congruence].
    rewrite Hsize, N.eqb_refl, Hshape. reflexivity.
  - intros G add_link g e z1 Hfwd He. unfold Mse.mse_loss_graph.
    rewrite Hfwd. simpl. now rewrite bool_decide_false.
Qed.

Lemma mse_loss_refusals_witness :
  Mse.mse_loss (Some (matrix 2 1 [3; 5]%float))
    (Some (matrix 1 2 [1; 1]%float)) (Some (matrix 1 1 [7%float]))
  = Some (TENSOR_SHAPE_MISMATCH, Some (matrix 1 1 [7%float]))
  /\ Mse.mse_loss_graph (D := float) (G := unit)
       (fun _ _ t _ g => (NO_ERROR, t, g))
       (Some (matrix 2 1 [3; 5]%float)) (Some (matrix 1 2 [1; 1]%float))
       (Some (matrix 1 1 [7%float])) ()
     = Some (TENSOR_SHAPE_MISMATCH, Some (matrix 1 1 [7%float]), ()).
Proof.
  pose proof (mse_loss_refusals float binary64
                (Some (matrix 2 1 [3; 5]%float))
                (Some (matrix 1 2 [1; 1]%float))
                (Some (matrix 1 1 [7%float]))) as (_ & _ & _ & Hshape & Hgraph).
  assert (Hfwd : Mse.mse_loss (Some (matrix 2 1 [3; 5]%float))
                   (Some (matrix 1 2 [1; 1]%float))
                   (Some (matrix 1 1 [7%float]))
                 = Some (TENSOR_SHAPE_MISMATCH, Some (matrix 1 1 [7%float]))).
  { eapply Hshape; try reflexivity; discriminate. }
  split; [exact Hfwd|].
  apply (Hgraph unit (fun _ _ t _ g => (NO_ERROR, t, g)) ());
    [exact Hfwd | discriminate].
Defined.

(** ** MSE loss: which elements are read *)

Section MseReads.
Context {D : Type} {SD : Scalar D}.
Local Open Scope dbl_scope.
Local Arguments while_loop : simpl never.
Local Arguments for_loop : simpl never.

(** A loop bounded by a [double] whose turn at counter [m], below the
    bound, is undefined has no defined run from any counter up to [m]. *)
Lemma while_loop_undefined {St : Type} (n m : N) (f : N -> St -> option St)
    (cond : N * St -> bool) (step : N * St -> option (N * St)) :
  size_exact n -> (n < 2 ^ SIZE_WIDTH)%N -> (m < n)%N ->
  (forall i s, cond (i, s) = (of_size i <? of_size n)) ->
  (forall i s, step (i, s) = s' ← f i s; Some (size_add i 1, s')) ->
  (forall s, f m s = None) ->
  forall count fuel i s,
    (i + N.of_nat count = m)%N ->
    while_loop fuel cond step (i, s) = None.
Proof.
  intros Hexact Hfit Hm Hcond Hstep Hnone count.
  induction count as [|count IH]; intros fuel i s Hi;
    (destruct fuel as [|fuel]; [reflexivity|]); rewrite while_loop_S;
    rewrite Hcond, Hexact by lia;
    (destruct (N.ltb_spec i n); [|lia]); rewrite Hstep.
  - replace i with m by lia. now rewrite Hnone.
  - destruct (f i s) as [s'|]; [|reflexivity]. cbn [mbind option_bind].
    unfold size_add. rewrite size_wrap_small by lia.
    apply IH. lia.
Qed.

Lemma mse_loss_value_first (p t z : tensor D) (pb tb zb : list D) :
  data p = Some pb -> data t = Some tb -> data z = Some zb ->
  data_size p = data_size t -> tensor_same_shape p t = true ->
  size_exact (dim p 0) -> (dim p 0 < 2 ^ SIZE_WIDTH)%N ->
  (N.to_nat (dim p 0) <= length pb)%nat ->
  (N.to_nat (dim p 0) <= length tb)%nat -> (0 < length zb)%nat ->
  Mse.mse_loss (Some p) (Some t) (Some z)
  = Some (NO_ERROR,
          Some (set_data z
                  (Some (<[0%nat :=
                     mean_half_squares (take (N.to_nat (dim p 0)) pb)
                       (take (N.to_nat (dim p 0)) tb) (dim p 0)]> zb)))).
Proof.
  intros Hp Ht Hz Hsize Hshape Hexact Hfit Hpl Htl Hzlen.
  unfold Mse.mse_loss. rewrite Hp, Ht, Hz, Hsize, N.eqb_refl, Hshape. simpl.
  unfold store_at at 1. simpl. rewrite store_Some by exact Hzlen. simpl.
  change (N.to_nat 0) with 0%nat.
  rewrite (while_loop_counts (dim p 0)
    (fun i zd =>
       pi ← load_at (Some pb) i; ti ← load_at (Some tb) i;
       z0 ← load_at zd 0;
       store_at zd 0 (z0 + half * (pi - ti) * (pi - ti)))
    _ _ Hexact Hfit) with (count := N.to_nat (dim p 0)).
  - rewrite (mse_sum_loop pb tb _ _ _ (of_int 0));
      [|apply list_lookup_insert_eq; exact Hzlen|simpl; lia|simpl; lia].
    simpl. rewrite !drop_0.
    unfold load_at, load. simpl. change (N.to_nat 0) with 0%nat.
    rewrite list_lookup_insert_eq by (rewrite length_insert; exact Hzlen).
    simpl. unfold store_at. simpl.
    rewrite store_Some by (rewrite !length_insert; exact Hzlen). simpl.
    change (N.to_nat 0) with 0%nat. now rewrite !list_insert_insert_eq.
  - now intros i s.
  - intros i zd. unfold Mse.mse_loss_step. rewrite Hp, Ht. bind_cases.
  - lia.
  - simpl. lia.
Qed.

Lemma mse_loss_undefined (p t z : tensor D) (pb tb : list D) :
  data p = Some pb -> data t = Some tb -> data z <> None ->
  data_size p = data_size t -> tensor_same_shape p t = true ->
  size_exact (dim p 0) -> (dim p 0 < 2 ^ SIZE_WIDTH)%N ->
  (length pb < N.to_nat (dim p 0))%nat
  \/ (length tb < N.to_nat (dim p 0))%nat ->
  Mse.mse_loss (Some p) (Some t) (Some z) = None.
Proof.
  intros Hp Ht Hz Hsize Hshape Hexact Hfit Hshort.
  unfold Mse.mse_loss. rewrite Hp, Ht, Hsize, N.eqb_refl, Hshape.
  destruct (data z) as [zb|]; [|congruence]. simpl.
  destruct (store zb 0 (of_int 0)) as [zb'|]; [|reflexivity].
  cbn [mbind option_bind].
  set (m := N.of_nat (Nat.min (length pb) (length tb))).
  rewrite (while_loop_undefined (dim p 0) m
    (fun i zd =>
       pi ← load_at (Some pb) i; ti ← load_at (Some tb) i;
       z0 ← load_at zd 0;
       store_at zd 0 (z0 + half * (pi - ti) * (pi - ti)))
    _ _ Hexact Hfit) with (count := N.to_nat m); [reflexivity|..].
  - unfold m. lia.
  - now intros i s.
  - intros i s. unfold Mse.mse_loss_step. rewrite Hp, Ht. bind_cases.
  - intros s. unfold load_at, load. simpl.
    destruct (Nat.min_spec (length pb) (length tb)) as [[_ Hmin]|[_ Hmin]].
    + rewrite (lookup_ge_None_2 pb) by (unfold m; lia). reflexivity.
    + destruct (pb !! N.to_nat m); [|reflexivity]. simpl.
      rewrite (lookup_ge_None_2 tb) by (unfold m; lia). reflexivity.
  - lia.
Qed.

End MseReads.

(** On binary64, for operands that pass the checks of [mse_loss], whatever
    their number of columns, with [shape[0]] below [2^53]: the loss is the
    mean of the halved squared errors of the first [shape[0]] elements of
    the two row-major buffers, so for a matrix with more than one column the
    elements past those do not enter it; and when a buffer holds fewer than
    [shape[0]] elements, as with a shape [(n, 0)], the call reads past its
    end. *)
Theorem mse_loss_reads_first_elements (p t z : tensor float)
    (pb tb zb : list float) :
  data p = Some pb -> data t = Some tb -> data z = Some zb ->
  data_size p = data_size t -> tensor_same_shape p t = true ->
  (dim p 0 < 2 ^ 53)%N ->
  ((N.to_nat (dim p 0) <= length pb)%nat ->
   (N.to_nat (dim p 0) <= length tb)%nat -> (0 < length zb)%nat ->
   Mse.mse_loss (Some p) (Some t) (Some z)
   = Some (NO_ERROR,
           Some (set_data z
                   (Some (<[0%nat :=
                      mean_half_squares (take (N.to_nat (dim p 0)) pb)
                        (take (N.to_nat (dim p 0)) tb) (dim p 0)]> zb)))))
  /\ ((length pb < N.to_nat (dim p 0))%nat
      \/ (length tb < N.to_nat (dim p 0))%nat ->
      Mse.mse_loss (Some p) (Some t) (Some z) = None).
Proof.
  intros Hp Ht Hz Hsize Hshape Hbatch.
  assert (Hfit : (dim p 0 < 2 ^ SIZE_WIDTH)%N).
  { eapply N.lt_trans; [exact Hbatch | reflexivity]. }
  split.
  - intros Hpl Htl Hzl.
    now apply mse_loss_value_first; try apply binary64_size_exact.
  - intros Hshort.
    apply (mse_loss_undefined p t z pb tb); try assumption;
      [congruence | now apply binary64_size_exact].
Qed.

Lemma mse_loss_reads_first_elements_witness :
  Mse.mse_loss (Some (matrix 2 2 [3; 5; 100; 200]%float))
    (Some (matrix 2 2 [1; 1; 0; 0]%float)) (Some (matrix 1 1 [0%float]))
  = Some (NO_ERROR,
          Some (set_data (matrix 1 1 [0%float])
                  (Some (<[0%nat :=
                     mean_half_squares [3; 5]%float [1; 1]%float 2]>
                     [0%float]))))
  /\ Mse.mse_loss (Some (matrix 2 0 []))
       (Some (matrix 2 0 [])) (Some (matrix 1 1 [0%float]))
     = None.
Proof.
  split.
  - apply (proj1 (mse_loss_reads_first_elements
             (matrix 2 2 [3; 5; 100; 200]%float)
             (matrix 2 2 [1; 1; 0; 0]%float) (matrix 1 1 [0%float])
             [3; 5; 100; 200]%float [1; 1; 0; 0]%float [0%float]
             eq_refl eq_refl eq_refl eq_refl eq_refl eq_refl));
      vm_compute; lia.
  - apply (proj2 (mse_loss_reads_first_elements
             (matrix 2 0 []) (matrix 2 0 []) (matrix 1 1 [0%float])
             [] [] [0%float]
             eq_refl eq_refl eq_refl eq_refl eq_refl eq_refl)).
    left. vm_compute. lia.
Defined.

(** On binary64 an empty batch is not refused: for operands with
    [shape[0] = 0] that pass the checks, [mse_loss] returns [NO_ERROR] and
    the loss it writes is [0 / 0], a NaN. *)
Theorem mse_loss_empty_batch (p t z : tensor float) (pb tb zb : list float) :
  data p = Some pb -> data t = Some tb -> data z = Some zb ->
  data_size p = data_size t -> tensor_same_shape p t = true ->
  dim p 0 = 0%N -> (0 < length zb)%nat ->
  Mse.mse_loss (Some p) (Some t) (Some z)
  = Some (NO_ERROR, Some (set_data z (Some (<[0%nat := nan]> zb)))).
Proof.
  intros Hp Ht Hz Hsize Hshape Hdim Hzl.
  rewrite (mse_loss_value_first p t z pb tb zb Hp Ht Hz Hsize Hshape);
    rewrite ?Hdim; try reflexivity; try (simpl; lia).
  now apply binary64_size_exact.
Qed.

Lemma mse_loss_empty_batch_witness :
  Mse.mse_loss (Some (matrix 0 1 [])) (Some (matrix 0 1 []))
    (Some (matrix 1 1 [5%float]))
  = Some (NO_ERROR,
          Some (set_data (matrix 1 1 [5%float])
                  (Some (<[0%nat := nan]> [5%float])))).
Proof.
  apply (mse_loss_empty_batch (matrix 0 1 []) (matrix 0 1 [])
           (matrix 1 1 [5%float]) [] [] [5%float]);
    try reflexivity. simpl. lia.
Defined.

(** ** Linear layer: forward pass and graph registration *)

(** Whatever the product, the bias sum and the registration do:
    [linear_forward] returns an error of [tensor2d_mult] without taking the
    bias sum, and otherwise the result of the bias sum taken in place on the
    product; [linear_forward_graph] returns an error of the forward pass with
    the graph state untouched; after a successful forward pass it registers
    the input, the weights and the biases in this order (slots 0, 1, 2, each
    with its backward rule), stops at the first registration that fails and
    returns its status, so that it returns [NO_ERROR] exactly when the three
    registrations succeed. *)
Theorem linear_forward_graph_chain (D G : Type)
    (mult add_row : option (tensor D) -> option (tensor D) ->
                    option (tensor D) ->
                    option (cgrad_error * option (tensor D)))
    (add_link : option (tensor D) -> N -> option (tensor D) -> backward_fn ->
                G -> cgrad_error * option (tensor D) * G)
    (x : option (tensor D)) (layer : LinearForward.linear_layer D)
    (out : option (tensor D)) (g : G) :
  let forward := LinearForward.linear_forward mult add_row x layer out in
  let forward_graph :=
    LinearForward.linear_forward_graph mult add_row add_link x layer out g in
  (forall e out1,
      mult x (LinearForward.weights layer) out = Some (e, out1) ->
      e <> NO_ERROR -> forward = Some (e, out1))
  /\ (forall out1,
        mult x (LinearForward.weights layer) out = Some (NO_ERROR, out1) ->
        forward = add_row out1 (LinearForward.biases layer) out1)
  /\ (forall e out1,
        forward = Some (e, out1) -> e <> NO_ERROR ->
        forward_graph = Some (e, out1, g))
  /\ (forall out1,
        forward = Some (NO_ERROR, out1) ->
        let r1 := add_link x 0%N out1 linear_backpropagate_input_fn g in
        let r2 := add_link (LinearForward.weights layer) 1%N r1.1.2
                    linear_backpropagate_weights_fn r1.2 in
        let r3 := add_link (LinearForward.biases layer) 2%N r2.1.2
                    linear_backpropagate_bias_fn r2.2 in
        exists r,
          forward_graph = Some r
          /\ (r.1.1 = NO_ERROR <->
              r1.1.1 = NO_ERROR /\ r2.1.1 = NO_ERROR /\ r3.1.1 = NO_ERROR)
          /\ (r1.1.1 <> NO_ERROR -> r = r1)
          /\ (r1.1.1 = NO_ERROR -> r2.1.1 <> NO_ERROR -> r = r2)
          /\ (r1.1.1 = NO_ERROR -> r2.1.1 = NO_ERROR -> r = r3)).
Proof.
  intros forward forward_graph. unfold forward_graph, forward.
  unfold LinearForward.linear_forward_graph, LinearForward.linear_forward.
  split; [|split; [|split]].
  - intros e out1 -> He. simpl. now rewrite bool_decide_false.
  - intros out1 ->. reflexivity.
  - intros e out1 -> He. simpl. now rewrite bool_decide_false.
  - intros out1 Hfwd. rewrite Hfwd. simpl.
    unfold LinearForward.linear_update_computational_graph.
    change Linear.INPUT with 0%N. change Linear.WEIGHTS with 1%N.
    change Linear.BIAS with 2%N.
    destruct (add_link x 0%N out1 linear_backpropagate_input_fn g)
      as [[e1 o1] g1]. simpl.
    destruct (decide (e1 = NO_ERROR)) as [-> | He1].
    + simpl.
      destruct (add_link (LinearForward.weights layer) 1%N o1
                  linear_backpropagate_weights_fn g1) as [[e2 o2] g2]. simpl.
      destruct (decide (e2 = NO_ERROR)) as [-> | He2].
      * simpl. eexists. split; [reflexivity|].
        split; [tauto|]. split; [done|]. split; [done | reflexivity].
      * rewrite (bool_decide_false _ He2). simpl.
        exists (e2, o2, g2). split; [reflexivity|].
        split; [simpl; tauto|]. split; [done|].
        split; [reflexivity | done].
    + rewrite (bool_decide_false _ He1). simpl.
      exists (e1, o1, g1). split; [reflexivity|].
      split; [simpl; tauto|]. split; [reflexivity|]. split; done.
Qed.

Lemma linear_forward_graph_chain_witness :
  LinearForward.linear_forward (D := float)
    (fun _ _ o => Some (TENSOR_SHAPE_MISMATCH, o))
    (fun _ _ o => Some (NO_ERROR, o))
    None {| LinearForward.in_dim := 1; LinearForward.out_dim := 1;
            LinearForward.weights := None; LinearForward.biases := None |}
    None
  = Some (TENSOR_SHAPE_MISMATCH, None).
Proof.
  apply (proj1 (linear_forward_graph_chain float unit
                  (fun _ _ o => Some (TENSOR_SHAPE_MISMATCH, o))
                  (fun _ _ o => Some (NO_ERROR, o))
                  (fun _ _ o _ g => (NO_ERROR, o, g))
                  None
                  {| LinearForward.in_dim := 1; LinearForward.out_dim := 1;
                     LinearForward.weights := None;
                     LinearForward.biases := None |}
                  None ()));
    [reflexivity | discriminate].
Defined.

(** ** Forward ReLU, AVX build *)

Section ReluAvxFacts.
Context {D : Type} {SD : Scalar D}.
Local Open Scope dbl_scope.
Local Arguments for_loop : simpl never.
Local Arguments while_loop : simpl never.

(** A run of turns that store at their counter a function of [x]. *)
Lemma relu_turns (h : D -> D) (xb ob : list D) (count : nat) (j : N) :
  (N.to_nat j + count <= length xb)%nat ->
  (N.to_nat j + count <= length ob)%nat ->
  exists ob',
    for_loop count j
      (fun i p => xi ← load_at (Some xb) i; store_at p i (h xi)) (Some ob)
    = Some (Some ob')
    /\ length ob' = length ob
    /\ (forall k xi, (k < count)%nat -> xb !! (N.to_nat j + k)%nat = Some xi ->
          ob' !! (N.to_nat j + k)%nat = Some (h xi))
    /\ (forall i, (i < N.to_nat j \/ N.to_nat j + count <= i)%nat ->
          ob' !! i = ob !! i).
Proof.
  intros Hx Ho.
  destruct (for_loop_store (fun i => xi ← load_at (Some xb) i; Some (h xi))
              (fun i p => xi ← load_at (Some xb) i; store_at p i (h xi)))
    with (count := count) (start := j) (buf := ob)
    as (ob' & Hrun & Hlen & Hin & Hout).
  - intros i p. bind_cases.
  - intros k Hk. unfold load_at, load. simpl.
    destruct (lookup_lt_is_Some_2 xb (N.to_nat (j + N.of_nat k)) ltac:(lia))
      as [xi ->]. simpl. eauto.
  - exact Ho.
  - exists ob'. split; [exact Hrun|]. split; [exact Hlen|].
    split; [|exact Hout].
    intros k xi Hk Hxi. rewrite (Hin k Hk). unfold load_at, load. simpl.
    replace (N.to_nat (j + N.of_nat k)) with (N.to_nat j + k)%nat by lia.
    now rewrite Hxi.
Qed.

(** One turn of the vector loop stores [relu_lane] of four elements. *)
Lemma relu_vector_step_eq (xb ob : list D) (j : N) :
  (N.to_nat j + 4 <= length xb)%nat -> (N.to_nat j + 4 <= length ob)%nat ->
  (j + 4 < 2 ^ SIZE_WIDTH)%N ->
  (x_vals ← Relu.mm256_loadu_pd (Some xb) j;
   p' ← Relu.mm256_storeu_pd (Some ob) j
          (Relu.mm256_max_pd (replicate 4 (of_int 0)) x_vals);
   Some (size_add j Relu.AVX_DOUBLE_NUMBER, p'))
  = p' ← for_loop 4 j
           (fun i p => xi ← load_at (Some xb) i; store_at p i (relu_lane xi))
           (Some ob);
    Some ((j + 4)%N, p').
Proof.
  intros Hx Ho Hj. set (jn := N.to_nat j).
  destruct (lookup_lt_is_Some_2 xb jn ltac:(lia)) as [x0 Hx0].
  destruct (lookup_lt_is_Some_2 xb (S jn) ltac:(lia)) as [x1 Hx1].
  destruct (lookup_lt_is_Some_2 xb (S (S jn)) ltac:(lia)) as [x2 Hx2].
  destruct (lookup_lt_is_Some_2 xb (S (S (S jn))) ltac:(lia)) as [x3 Hx3].
  rewrite (mm256_loadu_pd_eval xb j x0 x1 x2 x3)
    by first [exact Hx0 | exact Hx1 | exact Hx2 | exact Hx3].
  cbn [mbind option_bind]. simpl Relu.mm256_max_pd.
  rewrite mm256_storeu_pd_eval by (fold jn; lia).
  cbn [mbind option_bind]. fold jn.
  assert (Hturn : forall ob0 i (n : nat) xi,
            N.to_nat i = n -> xb !! n = Some xi -> (n < length ob0)%nat ->
            (xi0 ← load_at (Some xb) i; store_at (Some ob0) i (relu_lane xi0))
            = Some (Some (<[n := relu_lane xi]> ob0))).
  { intros ob0 i n xi <- Hxi Hn. unfold load_at, load, store_at. simpl.
    rewrite Hxi. simpl. now rewrite store_Some by exact Hn. }
  rewrite for_loop_S, (Hturn ob j jn x0) by (try reflexivity; try assumption; lia).
  cbn [mbind option_bind].
  rewrite for_loop_S, (Hturn _ (N.succ j) (S jn) x1)
    by (try assumption; rewrite ?length_insert; lia).
  cbn [mbind option_bind].
  rewrite for_loop_S, (Hturn _ (N.succ (N.succ j)) (S (S jn)) x2)
    by (try assumption; rewrite ?length_insert; lia).
  cbn [mbind option_bind].
  rewrite for_loop_S, (Hturn _ (N.succ (N.succ (N.succ j))) (S (S (S jn))) x3)
    by (try assumption; rewrite ?length_insert; lia).
  cbn [mbind option_bind]. unfold for_loop. cbn [mbind option_bind].
  unfold size_add, Relu.AVX_DOUBLE_NUMBER, relu_lane.
  rewrite size_wrap_small by exact Hj. reflexivity.
Qed.

(** The vector loop stores [relu_lane] of the elements it covers and stops
    at the last multiple of four. *)
Lemma relu_vector_loop (xb : list D) (n : N) :
  (n + 4 < 2 ^ SIZE_WIDTH)%N -> (N.to_nat n <= length xb)%nat ->
  forall q j ob fuel,
    (j + 4 * N.of_nat q <= n)%N -> (n < j + 4 * N.of_nat q + 4)%N ->
    (q < fuel)%nat -> (N.to_nat n <= length ob)%nat ->
    while_loop fuel
      (fun '(i, _) =>
         (size_sub (size_add i Relu.AVX_DOUBLE_NUMBER) 1 <? n)%N)
      (fun '(i, p) =>
         x_vals ← Relu.mm256_loadu_pd (Some xb) i;
         p' ← Relu.mm256_storeu_pd p i
                (Relu.mm256_max_pd (replicate 4 (of_int 0)) x_vals);
         Some (size_add i Relu.AVX_DOUBLE_NUMBER, p'))
      (j, Some ob)
    = p' ← for_loop (4 * q) j
             (fun i p => xi ← load_at (Some xb) i; store_at p i (relu_lane xi))
             (Some ob);
      Some ((j + 4 * N.of_nat q)%N, p').
Proof.
  intros Hfit Hxb q.
  induction q as [|q IH]; intros j ob fuel Hlo Hhi Hfuel Hob;
    (destruct fuel as [|fuel]; [lia|]); rewrite while_loop_S;
    change Relu.AVX_DOUBLE_NUMBER with Linear.AVX_DOUBLE_NUMBER;
    rewrite size_add4_sub1 by lia.
  - destruct (N.ltb_spec (j + 3) n); [lia|].
    simpl. do 2 f_equal. lia.
  - destruct (N.ltb_spec (j + 3) n); [|lia].
    replace (4 * S q)%nat with (4 + 4 * q)%nat by lia.
    rewrite for_loop_app. cbv zeta.
    change Linear.AVX_DOUBLE_NUMBER with Relu.AVX_DOUBLE_NUMBER.
    rewrite (relu_vector_step_eq xb ob j) by lia.
    destruct (relu_turns relu_lane xb ob 4 j ltac:(lia) ltac:(lia))
      as (ob4 & Hrun4 & Hlen4 & _).
    rewrite Hrun4. cbn [mbind option_bind].
    rewrite (IH (j + 4)%N ob4 fuel) by lia.
    change (N.of_nat 4) with 4%N.
    destruct (for_loop (4 * q) (j + 4) _ (Some ob4)) as [p'|];
      [|reflexivity].
    cbn [mbind option_bind]. do 2 f_equal. lia.
Qed.

Lemma relu_forward_avx_pointwise (x out : tensor D) (xb ob : list D) :
  data x = Some xb -> data out = Some ob ->
  tensor_same_shape x out = true ->
  (data_size x + 4 < 2 ^ SIZE_WIDTH)%N ->
  (N.to_nat (data_size x) <= length xb)%nat ->
  (N.to_nat (data_size x) <= length ob)%nat ->
  exists ob',
    Relu.relu_forward true (Some x) (Some out)
    = Some (NO_ERROR, Some (set_data out (Some ob')))
    /\ length ob' = length ob
    /\ (forall i xi, (i < 4 * N.to_nat (data_size x / 4))%nat ->
          xb !! i = Some xi -> ob' !! i = Some (relu_lane xi))
    /\ (forall i xi,
          (4 * N.to_nat (data_size x / 4) <= i < N.to_nat (data_size x))%nat ->
          xb !! i = Some xi -> ob' !! i = Some (Relu.relu_scalar xi))
    /\ (forall i, (N.to_nat (data_size x) <= i)%nat -> ob' !! i = ob !! i).
Proof.
  intros Hx Hout Hshape Hfit Hxb Hob.
  pose proof (N.div_mod (data_size x) 4 ltac:(lia)) as Hdiv.
  pose proof (N.mod_lt (data_size x) 4 ltac:(lia)) as Hmod.
  set (q := N.to_nat (data_size x / 4)) in *.
  set (r := N.to_nat (data_size x mod 4)) in *.
  destruct (relu_turns relu_lane xb ob (4 * q) 0%N) as
    (ob1 & Hrun1 & Hlen1 & Hin1 & Hout1); [unfold q; lia..|].
  destruct (relu_turns Relu.relu_scalar xb ob1 r (N.of_nat (4 * q))) as
    (ob2 & Hrun2 & Hlen2 & Hin2 & Hout2); [unfold q, r; lia..|].
  exists ob2. split; [|split; [congruence | split; [|split]]].
  - unfold Relu.relu_forward. rewrite Hx, Hout, Hshape. simpl.
    unfold Relu.relu_forward_unchecked_avx_256. rewrite Hout, Hx.
    cbv zeta.
    rewrite (relu_vector_loop xb (data_size x) Hfit Hxb q 0%N ob)
      by (unfold q; simpl; lia).
    rewrite Hrun1. cbn [mbind option_bind].
    replace (N.to_nat (data_size x - (0 + 4 * N.of_nat q))) with r
      by (unfold q, r; lia).
    replace (0 + 4 * N.of_nat q)%N with (N.of_nat (4 * q)) by lia.
    rewrite Hrun2. reflexivity.
  - intros i xi Hi Hxi. rewrite Hout2 by lia.
    apply (Hin1 i xi Hi). exact Hxi.
  - intros i xi Hi Hxi.
    replace i with (N.to_nat (N.of_nat (4 * q)) + (i - 4 * q))%nat by lia.
    apply Hin2; [unfold q, r in *; lia|].
    replace (N.to_nat (N.of_nat (4 * q)) + (i - 4 * q))%nat with i by lia.
    exact Hxi.
  - intros i Hi. rewrite Hout2 by (unfold q, r in *; lia).
    apply Hout1. unfold q in *. lia.
Qed.

(** The scalar build, through the same run of turns. *)
Lemma relu_forward_scalar_pointwise (x out : tensor D) (xb ob : list D) :
  data x = Some xb -> data out = Some ob ->
  tensor_same_shape x out = true ->
  (N.to_nat (data_size out) <= length xb)%nat ->
  (N.to_nat (data_size out) <= length ob)%nat ->
  exists ob',
    Relu.relu_forward false (Some x) (Some out)
    = Some (NO_ERROR, Some (set_data out (Some ob')))
    /\ length ob' = length ob
    /\ (forall i xi, (i < N.to_nat (data_size out))%nat ->
          xb !! i = Some xi -> ob' !! i = Some (Relu.relu_scalar xi))
    /\ (forall i, (N.to_nat (data_size out) <= i)%nat -> ob' !! i = ob !! i).
Proof.
  intros Hx Hout Hshape Hxb Hob.
  destruct (relu_turns Relu.relu_scalar xb ob (N.to_nat (data_size out)) 0%N)
    as (ob1 & Hrun & Hlen & Hin & Hrest); [simpl; lia..|].
  exists ob1. split; [|split; [exact Hlen | split]].
  - unfold Relu.relu_forward. rewrite Hx, Hout, Hshape. simpl.
    unfold Relu.relu_forward_unchecked_scalar, for_size.
    rewrite Hx, Hout, Hrun. reflexivity.
  - intros i xi Hi Hxi. apply (Hin i xi Hi). exact Hxi.
  - intros i Hi. apply Hrest. simpl. lia.
Qed.

(** The two builds leave the same tensor as soon as the vector lane and the
    scalar expression agree on the elements the vector loop covers. *)
Lemma relu_builds_agree (x out : tensor D) (xb ob : list D) :
  data x = Some xb -> data out = Some ob ->
  tensor_same_shape x out = true ->
  data_size out = data_size x ->
  (data_size x + 4 < 2 ^ SIZE_WIDTH)%N ->
  (N.to_nat (data_size x) <= length xb)%nat ->
  (N.to_nat (data_size x) <= length ob)%nat ->
  (forall i xi, (i < 4 * N.to_nat (data_size x / 4))%nat ->
     xb !! i = Some xi -> relu_lane xi = Relu.relu_scalar xi) ->
  Relu.relu_forward true (Some x) (Some out)
  = Relu.relu_forward false (Some x) (Some out).
Proof.
  intros Hx Hout Hshape Hsize Hfit Hxb Hob Hlane.
  destruct (relu_forward_avx_pointwise x out xb ob Hx Hout Hshape Hfit Hxb Hob)
    as (oa & -> & Hla & Hvec & Htail & Hresta).
  destruct (relu_forward_scalar_pointwise x out xb ob Hx Hout Hshape)
    as (os & -> & Hls & Hsc & Hrests); [rewrite Hsize; assumption..|].
  rewrite Hsize in Hsc, Hrests.
  enough (oa = os) as -> by reflexivity. apply list_eq. intros i.
  destruct (le_lt_dec (N.to_nat (data_size x)) i) as [Hi|Hi].
  - now rewrite Hresta, Hrests.
  - destruct (lookup_lt_is_Some_2 xb i ltac:(lia)) as [xi Hxi].
    rewrite (Hsc i xi Hi Hxi).
    destruct (le_lt_dec (4 * N.to_nat (data_size x / 4)) i) as [Ht|Ht].
    + apply Htail; [lia | exact Hxi].
    + rewrite (Hvec i xi Ht Hxi). f_equal. now apply (Hlane i xi).
Qed.

(** [relu] is idempotent: the scalar expression leaves its own results
    alone. *)
Lemma relu_scalar_idempotent (v : D) :
  Relu.relu_scalar (Relu.relu_scalar v) = Relu.relu_scalar v.
Proof.
  unfold Relu.relu_scalar.
  destruct (of_int 0 <? v) eqn:Hv; [now rewrite Hv|].
  now destruct (of_int 0 <? of_int 0).
Qed.

End ReluAvxFacts.

(** ** The vector lane on binary64 *)

Lemma Prim2SF_zero : Prim2SF (Z2double 0) = S754_zero false.
Proof. reflexivity. Qed.

(** On every double but the NaNs and [-0.0], [_mm256_max_pd(0, x)] and
    [x > 0 ? x : 0] are the same double. *)
Lemma relu_lane_ordinary (v : float) :
  ordinary v -> relu_lane v = Relu.relu_scalar v.
Proof.
  intros [Hnan Hneg]. unfold relu_lane, Relu.relu_scalar. simpl.
  rewrite !ltb_spec, Prim2SF_zero.
  destruct (Prim2SF v) as [s| s | |s m e] eqn:Hv.
  - destruct s; [congruence|]. simpl.
    apply Prim2SF_inj. now rewrite Hv, Prim2SF_zero.
  - now destruct s.
  - congruence.
  - now destruct s.
Qed.

(** On a NaN and on [-0.0] the lane keeps its argument, and the scalar
    expression gives [+0.0], which is another double. *)
Lemma relu_lane_keeps (v : float) :
  Prim2SF v = S754_nan \/ Prim2SF v = S754_zero true ->
  relu_lane v = v /\ Relu.relu_scalar v = Z2double 0 /\ v <> Z2double 0.
Proof.
  intros Hv. unfold relu_lane, Relu.relu_scalar. simpl.
  rewrite !ltb_spec, Prim2SF_zero.
  split; [|split].
  - destruct Hv as [-> | ->]; reflexivity.
  - destruct Hv as [-> | ->]; reflexivity.
  - intros ->. rewrite Prim2SF_zero in Hv. destruct Hv; congruence.
Qed.

(** The AVX build of [relu_forward].  Given tensors of one shape whose
    buffers hold at least [x->data_size] elements, it returns [NO_ERROR];
    every index below the last multiple of four within [x->data_size]
    receives the lane of [_mm256_max_pd(0, x)], that is [0 > x[i] ? 0 : x[i]],
    the indices after it and below [x->data_size] receive
    [x[i] > 0 ? x[i] : 0], and nothing else is written. *)
Theorem relu_forward_avx_value (D : Type) (SD : Scalar D)
    (x out : tensor D) (xb ob : list D) :
  data x = Some xb -> data out = Some ob ->
  tensor_same_shape x out = true ->
  (data_size x + 4 < 2 ^ SIZE_WIDTH)%N ->
  (N.to_nat (data_size x) <= length xb)%nat ->
  (N.to_nat (data_size x) <= length ob)%nat ->
  exists ob',
    Relu.relu_forward true (Some x) (Some out)
    = Some (NO_ERROR, Some (set_data out (Some ob')))
    /\ length ob' = length ob
    /\ (forall i xi, (i < 4 * N.to_nat (data_size x / 4))%nat ->
          xb !! i = Some xi ->
          ob' !! i = Some (if dlt xi (of_int 0) then of_int 0 else xi))
    /\ (forall i xi,
          (4 * N.to_nat (data_size x / 4) <= i < N.to_nat (data_size x))%nat ->
          xb !! i = Some xi ->
          ob' !! i = Some (if dlt (of_int 0) xi then xi else of_int 0))
    /\ (forall i, (N.to_nat (data_size x) <= i)%nat -> ob' !! i = ob !! i).
Proof.
  intros Hx Hout Hshape Hfit Hxb Hob.
  exact (relu_forward_avx_pointwise x out xb ob Hx Hout Hshape Hfit Hxb Hob).
Qed.

Lemma relu_forward_avx_value_witness :
  exists ob',
    Relu.relu_forward true (Some (matrix 1 5 [-1; 2; -3; 4; -5]%float))
      (Some (matrix 1 5 [7; 7; 7; 7; 7]%float))
    = Some (NO_ERROR,
            Some (set_data (matrix 1 5 [7; 7; 7; 7; 7]%float) (Some ob')))
    /\ length ob' = 5%nat
    /\ (forall i xi, (i < 4)%nat ->
          [-1; 2; -3; 4; -5]%float !! i = Some xi ->
          ob' !! i = Some (if dlt xi (of_int 0) then of_int 0 else xi))
    /\ (forall i xi, (4 <= i < 5)%nat ->
          [-1; 2; -3; 4; -5]%float !! i = Some xi ->
          ob' !! i = Some (if dlt (of_int 0) xi then xi else of_int 0))
    /\ (forall i, (5 <= i)%nat -> ob' !! i = [7; 7; 7; 7; 7]%float !! i).
Proof.
  apply (relu_forward_avx_value float binary64
           (matrix 1 5 [-1; 2; -3; 4; -5]%float)
           (matrix 1 5 [7; 7; 7; 7; 7]%float)
           [-1; 2; -3; 4; -5]%float [7; 7; 7; 7; 7]%float);
    try reflexivity; vm_compute; lia.
Defined.

(** On binary64, the AVX build and the scalar build of [relu_forward] return
    the same status and leave the same tensor when [x] and [out] have one
    shape and one size and no element the vector loop covers is a NaN or
    [-0.0]. *)
Theorem relu_forward_builds_agree (x out : tensor float)
    (xb ob : list float) :
  data x = Some xb -> data out = Some ob ->
  tensor_same_shape x out = true ->
  data_size out = data_size x ->
  (data_size x + 4 < 2 ^ SIZE_WIDTH)%N ->
  (N.to_nat (data_size x) <= length xb)%nat ->
  (N.to_nat (data_size x) <= length ob)%nat ->
  (forall i xi, (i < 4 * N.to_nat (data_size x / 4))%nat ->
     xb !! i = Some xi -> ordinary xi) ->
  Relu.relu_forward true (Some x) (Some out)
  = Relu.relu_forward false (Some x) (Some out).
Proof.
  intros Hx Hout Hshape Hsize Hfit Hxb Hob Hord.
  apply (relu_builds_agree x out xb ob); try assumption.
  intros i xi Hi Hxi. apply relu_lane_ordinary. exact (Hord i xi Hi Hxi).
Qed.

Lemma relu_forward_builds_agree_witness :
  Relu.relu_forward true (Some (matrix 1 5 [-1; 2; -3; 4; -5]%float))
    (Some (matrix 1 5 [7; 7; 7; 7; 7]%float))
  = Relu.relu_forward false (Some (matrix 1 5 [-1; 2; -3; 4; -5]%float))
      (Some (matrix 1 5 [7; 7; 7; 7; 7]%float)).
Proof.
  apply (relu_forward_builds_agree
           (matrix 1 5 [-1; 2; -3; 4; -5]%float)
           (matrix 1 5 [7; 7; 7; 7; 7]%float)
           [-1; 2; -3; 4; -5]%float [7; 7; 7; 7; 7]%float);
    try reflexivity; try (vm_compute; lia).
  intros i xi Hi Hxi.
  do 4 (destruct i as [|i];
        [injection Hxi as <-; split; vm_compute; discriminate|]).
  vm_compute in Hi. lia.
Defined.

(** On binary64, where [x] holds a NaN or [-0.0] at an index the vector loop
    covers, the two builds of [relu_forward] leave different doubles there:
    the AVX build keeps the element, the scalar build writes [+0.0]. *)
Theorem relu_forward_builds_differ (x out : tensor float)
    (xb ob : list float) (i : nat) (xi : float) :
  data x = Some xb -> data out = Some ob ->
  tensor_same_shape x out = true ->
  data_size out = data_size x ->
  (data_size x + 4 < 2 ^ SIZE_WIDTH)%N ->
  (N.to_nat (data_size x) <= length xb)%nat ->
  (N.to_nat (data_size x) <= length ob)%nat ->
  (i < 4 * N.to_nat (data_size x / 4))%nat -> xb !! i = Some xi ->
  Prim2SF xi = S754_nan \/ Prim2SF xi = S754_zero true ->
  exists oa os,
    Relu.relu_forward true (Some x) (Some out)
    = Some (NO_ERROR, Some (set_data out (Some oa)))
    /\ Relu.relu_forward false (Some x) (Some out)
       = Some (NO_ERROR, Some (set_data out (Some os)))
    /\ oa !! i = Some xi /\ os !! i = Some (Z2double 0)
    /\ xi <> Z2double 0.
Proof.
  intros Hx Hout Hshape Hsize Hfit Hxb Hob Hi Hxi Hspecial.
  destruct (relu_forward_avx_pointwise x out xb ob Hx Hout Hshape Hfit Hxb Hob)
    as (oa & Hruna & _ & Hvec & _ & _).
  destruct (relu_forward_scalar_pointwise x out xb ob Hx Hout Hshape)
    as (os & Hruns & _ & Hsc & _); [rewrite Hsize; assumption..|].
  destruct (relu_lane_keeps xi Hspecial) as (Hkeep & Hflush & Hne).
  pose proof (N.Div0.mul_div_le (data_size x) 4) as Hdiv.
  exists oa, os. split; [exact Hruna|]. split; [exact Hruns|].
  split; [|split; [|exact Hne]].
  - rewrite (Hvec i xi Hi Hxi). now rewrite Hkeep.
  - assert (Hin : (i < N.to_nat (data_size out))%nat)
      by (rewrite Hsize; lia).
    rewrite (Hsc i xi Hin Hxi). now rewrite Hflush.
Qed.

Lemma relu_forward_builds_differ_witness :
  exists oa os,
    Relu.relu_forward true (Some (matrix 1 4 [neg_zero; 1; nan; 3]%float))
      (Some (matrix 1 4 [7; 7; 7; 7]%float))
    = Some (NO_ERROR,
            Some (set_data (matrix 1 4 [7; 7; 7; 7]%float) (Some oa)))
    /\ Relu.relu_forward false (Some (matrix 1 4 [neg_zero; 1; nan; 3]%float))
         (Some (matrix 1 4 [7; 7; 7; 7]%float))
       = Some (NO_ERROR,
               Some (set_data (matrix 1 4 [7; 7; 7; 7]%float) (Some os)))
    /\ oa !! 2%nat = Some nan /\ os !! 2%nat = Some (Z2double 0)
    /\ nan <> Z2double 0.
Proof.
  apply (relu_forward_builds_differ
           (matrix 1 4 [neg_zero; 1; nan; 3]%float)
           (matrix 1 4 [7; 7; 7; 7]%float)
           [neg_zero; 1; nan; 3]%float [7; 7; 7; 7]%float 2 nan);
    try reflexivity; try (vm_compute; lia).
  left. reflexivity.
Defined.

(** The scalar build of [relu_forward] is idempotent: run on its own output,
    it writes the same elements again. *)
Theorem relu_forward_idempotent (D : Type) (SD : Scalar D)
    (x out out2 : tensor D) (xb ob ob2 : list D) :
  data x = Some xb -> data out = Some ob -> data out2 = Some ob2 ->
  tensor_same_shape x out = true -> tensor_same_shape out out2 = true ->
  data_size out2 = data_size out ->
  (N.to_nat (data_size out) <= length xb)%nat ->
  (N.to_nat (data_size out) <= length ob)%nat ->
  (N.to_nat (data_size out) <= length ob2)%nat ->
  exists ob' ob2',
    Relu.relu_forward false (Some x) (Some out)
    = Some (NO_ERROR, Some (set_data out (Some ob')))
    /\ Relu.relu_forward false (Some (set_data out (Some ob'))) (Some out2)
       = Some (NO_ERROR, Some (set_data out2 (Some ob2')))
    /\ (forall i, (i < N.to_nat (data_size out))%nat ->
          ob2' !! i = ob' !! i).
Proof.
  intros Hx Hout Hout2 Hshape Hshape2 Hsize Hxb Hob Hob2.
  destruct (relu_forward_scalar_pointwise x out xb ob Hx Hout Hshape Hxb Hob)
    as (ob' & Hrun & Hlen & Hin & _).
  destruct (relu_forward_scalar_pointwise (set_data out (Some ob')) out2
              ob' ob2)
    as (ob2' & Hrun2 & _ & Hin2 & _);
    [reflexivity | exact Hout2 | exact Hshape2 | lia.. |].
  exists ob', ob2'. split; [exact Hrun|]. split; [exact Hrun2|].
  intros i Hi.
  destruct (lookup_lt_is_Some_2 xb i ltac:(lia)) as [xi Hxi].
  rewrite (Hin2 i (Relu.relu_scalar xi)) by (rewrite ?Hsize; auto).
  rewrite (Hin i xi Hi Hxi). now rewrite relu_scalar_idempotent.
Qed.

Lemma relu_forward_idempotent_witness :
  exists ob' ob2',
    Relu.relu_forward false (Some (matrix 1 2 [-1; 2]%float))
      (Some (matrix 1 2 [7; 7]%float))
    = Some (NO_ERROR, Some (set_data (matrix 1 2 [7; 7]%float) (Some ob')))
    /\ Relu.relu_forward false
         (Some (set_data (matrix 1 2 [7; 7]%float) (Some ob')))
         (Some (matrix 1 2 [9; 9]%float))
       = Some (NO_ERROR, Some (set_data (matrix 1 2 [9; 9]%float) (Some ob2')))
    /\ (forall i, (i < 2)%nat -> ob2' !! i = ob' !! i).
Proof.
  apply (relu_forward_idempotent float binary64
           (matrix 1 2 [-1; 2]%float) (matrix 1 2 [7; 7]%float)
           (matrix 1 2 [9; 9]%float)
           [-1; 2]%float [7; 7]%float [9; 9]%float);
    try reflexivity; vm_compute; lia.
Defined.
